(** * libsmtp: MIME message assembly and SMTP delivery

    A shallow embedding of [libsmtp.go].  A [*MailMessage] receiver becomes
    explicit state passing: every method takes the message and returns the
    message it leaves behind together with its Go results.  Go [string]s are
    [string], [[]byte] and [bytes.Buffer] contents are [list byte], [int] is
    [Z] (the only arithmetic is on lengths of in-memory slices, far below
    the 64-bit limit), and the three attachment maps are [gmap]s. *)

From Stdlib Require Import ZArith Lia List Strings.Ascii Strings.Byte.
From stdpp Require Import gmap strings list pretty.

Local Open Scope Z_scope.
Local Open Scope string_scope.

(** ** Bytes *)

Definition byte_to_Z (b : byte) : Z := Z.of_N (Byte.to_N b).

Definition byte_of_Z (z : Z) : byte :=
  match Byte.of_N (Z.to_N z) with
  | Some b => b
  | None => "000"%byte
  end.

(** [buf.WriteString(s)] and [buf.Write(p)] on a [bytes.Buffer]. *)
Definition WriteString (b : list byte) (s : string) : list byte :=
  b ++ String.list_byte_of_string s.

Definition Write (b p : list byte) : list byte := b ++ p.

(** ** encoding/base64, [StdEncoding]

    The standard alphabet with [=] padding, as [base64.StdEncoding] uses it.
    [Encode] follows the library's loop: whole groups of three bytes first,
    then the one or two remaining bytes with padding. *)
Module base64.

Definition encodeStd : list byte :=
  String.list_byte_of_string
    "ABCDEFGHIJKLMNOPQRSTUVWXYZabcdefghijklmnopqrstuvwxyz0123456789+/".

Definition StdPadding : byte := "="%byte.

(** [enc.encode[i]] *)
Definition encode (i : Z) : byte := nth (Z.to_nat i) encodeStd "000"%byte.

(** [EncodedLen(n)] for a padded encoding: [(n + 2) / 3 * 4]. *)
Definition EncodedLen (n : Z) : Z := (n + 2) / 3 * 4.

Fixpoint Encode (src : list byte) : list byte :=
  match src with
  | [] => []
  | [s0] =>
      let val := Z.shiftl (byte_to_Z s0) 16 in
      [ encode (Z.land (Z.shiftr val 18) 63);
        encode (Z.land (Z.shiftr val 12) 63);
        StdPadding; StdPadding ]
  | [s0; s1] =>
      let val := Z.lor (Z.shiftl (byte_to_Z s0) 16) (Z.shiftl (byte_to_Z s1) 8) in
      [ encode (Z.land (Z.shiftr val 18) 63);
        encode (Z.land (Z.shiftr val 12) 63);
        encode (Z.land (Z.shiftr val 6) 63);
        StdPadding ]
  | s0 :: s1 :: s2 :: rest =>
      let val := Z.lor (Z.lor (Z.shiftl (byte_to_Z s0) 16)
                              (Z.shiftl (byte_to_Z s1) 8))
                       (byte_to_Z s2) in
      encode (Z.land (Z.shiftr val 18) 63)
      :: encode (Z.land (Z.shiftr val 12) 63)
      :: encode (Z.land (Z.shiftr val 6) 63)
      :: encode (Z.land val 63)
      :: Encode rest
  end.

(** Position of a character in the alphabet, the library's [decodeMap]. *)
Fixpoint index_of (c : byte) (l : list byte) (i : Z) : option Z :=
  match l with
  | [] => None
  | x :: l' => if Byte.eqb c x then Some i else index_of c l' (i + 1)
  end.

Definition decodeMap (c : byte) : option Z := index_of c encodeStd 0.

(** Decoding of padded standard base64 (RFC 4648, section 4): groups of four
    characters, padding only in the last group.  This is the decoder the
    round-trip property of the specification refers to; input with line
    breaks or stray characters is rejected. *)
Fixpoint Decode (s : list byte) : option (list byte) :=
  match s with
  | [] => Some []
  | c0 :: c1 :: c2 :: c3 :: rest =>
      match decodeMap c0, decodeMap c1 with
      | Some d0, Some d1 =>
          match decodeMap c2, decodeMap c3 with
          | Some d2, Some d3 =>
              let val := Z.lor (Z.lor (Z.lor (Z.shiftl d0 18) (Z.shiftl d1 12))
                                      (Z.shiftl d2 6)) d3 in
              match Decode rest with
              | Some out =>
                  Some (byte_of_Z (Z.land (Z.shiftr val 16) 255)
                        :: byte_of_Z (Z.land (Z.shiftr val 8) 255)
                        :: byte_of_Z (Z.land val 255) :: out)
              | None => None
              end
          | Some d2, None =>
              let val := Z.lor (Z.lor (Z.shiftl d0 18) (Z.shiftl d1 12))
                               (Z.shiftl d2 6) in
              match rest with
              | [] =>
                  if Byte.eqb c3 StdPadding
                  then Some [ byte_of_Z (Z.land (Z.shiftr val 16) 255);
                              byte_of_Z (Z.land (Z.shiftr val 8) 255) ]
                  else None
              | _ :: _ => None
              end
          | None, _ =>
              let val := Z.lor (Z.shiftl d0 18) (Z.shiftl d1 12) in
              match rest with
              | [] =>
                  if Byte.eqb c2 StdPadding && Byte.eqb c3 StdPadding
                  then Some [ byte_of_Z (Z.land (Z.shiftr val 16) 255) ]
                  else None
              | _ :: _ => None
              end
          end
      | _, _ => None
      end
  | _ => None
  end.

End base64.

(** ** path/filepath, [Base] (slash-separated paths) *)
Module filepath.

Definition IsPathSeparator (c : ascii) : bool := Ascii.eqb c "/"%char.

Fixpoint strip_separators (l : list ascii) : list ascii :=
  match l with
  | c :: l' => if IsPathSeparator c then strip_separators l' else l
  | [] => []
  end.

Fixpoint until_separator (l : list ascii) : list ascii :=
  match l with
  | c :: l' => if IsPathSeparator c then [] else c :: until_separator l'
  | [] => []
  end.

(** [Base] returns the last element of the path: trailing separators are
    stripped first; an empty path gives ".", a path of separators only
    gives "/".  The scans run from the end of the path, here over the
    reversed character list. *)
Definition Base (path : string) : string :=
  match path with
  | EmptyString => "."
  | _ =>
      let stripped := strip_separators (rev (String.list_ascii_of_string path)) in
      match rev (until_separator stripped) with
      | [] => "/"
      | last => String.string_of_list_ascii last
      end
  end.

End filepath.

(** ** strings, [Join] and [Contains] *)
Module strings.

Fixpoint Join (elems : list string) (sep : string) : string :=
  match elems with
  | [] => EmptyString
  | [x] => x
  | x :: rest => x +:+ sep +:+ Join rest sep
  end.

Fixpoint Contains (s substr : string) : bool :=
  String.prefix substr s
  || match s with
     | EmptyString => false
     | String _ s' => Contains s' substr
     end.

End strings.

(** ** Errors

    [fmt.Errorf] builds an error from its message; errors that come out of
    [ioutil.ReadFile] and [net/smtp] are opaque values passed through
    unchanged. *)
Inductive error : Type :=
| Errorf (msg : string)
| PathError (msg : string)
| ProtocolError (msg : string).

Definition nl : string := String "010"%char EmptyString.
Definition dq : string := String "034"%char EmptyString.

(** ** The message *)
Record MailMessage : Type := mkMailMessage {
  attachmentLengths : gmap string Z;
  attachments : gmap string (list byte);
  attachmentBoundaries : gmap string string;
  body : list byte;
  buf : list byte;
  from : string;
  port : Z;
  server : string;
  subject : string;
  tls : bool;
  to : list string;
  contentType : string;
  buildCalled : bool
}.

(** [New].  [now] is the text [time.Now()] formats to under [%s].  The first
    component is the returned pointer, [None] for [nil]. *)
Definition New (now : string) (server : string) (port : Z) (from : string)
    (to : list string) (usetls : bool) : option MailMessage * option error :=
  if String.eqb server EmptyString then
    (None, Some (Errorf "SMTP server required"))
  else if String.eqb from EmptyString then
    (None, Some (Errorf "SMTP sender required"))
  else if (Z.of_nat (length to) =? 0)%Z then
    (None, Some (Errorf "Mail recipient(s) required"))
  else
    let port := if (port <=? 0)%Z then 25 else port in
    (Some {| attachmentBoundaries := ∅;
             attachmentLengths := ∅;
             attachments := ∅;
             body := [];
             buf := [];
             contentType := "text/plain";
             from := from;
             port := port;
             server := server;
             subject := "libsmtp - " +:+ now;
             tls := usetls;
             to := to;
             buildCalled := false |}, None).

(** Field assignments through the receiver pointer. *)
Definition with_body (m : MailMessage) (b : list byte) : MailMessage :=
  {| attachmentLengths := attachmentLengths m; attachments := attachments m;
     attachmentBoundaries := attachmentBoundaries m; body := b; buf := buf m;
     from := from m; port := port m; server := server m; subject := subject m;
     tls := tls m; to := to m; contentType := contentType m;
     buildCalled := buildCalled m |}.

Definition with_buf (m : MailMessage) (b : list byte) : MailMessage :=
  {| attachmentLengths := attachmentLengths m; attachments := attachments m;
     attachmentBoundaries := attachmentBoundaries m; body := body m; buf := b;
     from := from m; port := port m; server := server m; subject := subject m;
     tls := tls m; to := to m; contentType := contentType m;
     buildCalled := buildCalled m |}.

Definition with_subject (m : MailMessage) (s : string) : MailMessage :=
  {| attachmentLengths := attachmentLengths m; attachments := attachments m;
     attachmentBoundaries := attachmentBoundaries m; body := body m; buf := buf m;
     from := from m; port := port m; server := server m; subject := s;
     tls := tls m; to := to m; contentType := contentType m;
     buildCalled := buildCalled m |}.

Definition with_contentType (m : MailMessage) (ct : string) : MailMessage :=
  {| attachmentLengths := attachmentLengths m; attachments := attachments m;
     attachmentBoundaries := attachmentBoundaries m; body := body m; buf := buf m;
     from := from m; port := port m; server := server m; subject := subject m;
     tls := tls m; to := to m; contentType := ct;
     buildCalled := buildCalled m |}.

Definition with_buildCalled (m : MailMessage) (b : bool) : MailMessage :=
  {| attachmentLengths := attachmentLengths m; attachments := attachments m;
     attachmentBoundaries := attachmentBoundaries m; body := body m; buf := buf m;
     from := from m; port := port m; server := server m; subject := subject m;
     tls := tls m; to := to m; contentType := contentType m;
     buildCalled := b |}.

Definition with_attachment (m : MailMessage) (name : string)
    (encoded : list byte) (encodedLen : Z) (boundary : string) : MailMessage :=
  {| attachmentLengths := <[name := encodedLen]> (attachmentLengths m);
     attachments := <[name := encoded]> (attachments m);
     attachmentBoundaries := <[name := boundary]> (attachmentBoundaries m);
     body := body m; buf := buf m;
     from := from m; port := port m; server := server m; subject := subject m;
     tls := tls m; to := to m; contentType := contentType m;
     buildCalled := buildCalled m |}.

(** [AddAttachment].  [ReadFile] stands for [ioutil.ReadFile] on the file
    system of the call, [boundary] for the token [utils.RandomBase36()]
    returns when it is reached. *)
Definition AddAttachment (ReadFile : string → list byte * option error)
    (boundary : string) (pathToFile : string) (m : MailMessage)
    : MailMessage * option error :=
  if negb (String.eqb pathToFile EmptyString) then
    let attachmentName := filepath.Base pathToFile in
    let '(b, err) := ReadFile pathToFile in
    match err with
    | Some e => (m, Some e)
    | None =>
        let encodedLen := base64.EncodedLen (Z.of_nat (length b)) in
        let encodedAttachment := base64.Encode b in
        (with_attachment m attachmentName encodedAttachment encodedLen boundary,
         None)
    end
  else (m, Some (Errorf "No attachment specified")).

Definition SetBody (data : string) (m : MailMessage) : MailMessage :=
  with_body m (WriteString (body m) data).

Definition SetBodyBytes (data : list byte) (m : MailMessage) : MailMessage :=
  with_body m (Write (body m) data).

Definition SetContentType (ct : string) (m : MailMessage) : MailMessage :=
  if (0 <? Z.of_nat (String.length ct))%Z then with_contentType m ct
  else with_contentType m "text/plain".

Definition Subject (subject : string) (m : MailMessage) : MailMessage :=
  with_subject m subject.

(** The body of the first [range] loop of [build], for one boundary [v]. *)
Definition write_multipart_header (b : list byte) (kv : string * string)
    : list byte :=
  let v := kv.2 in
  let b := WriteString b
    ("Content-Type: multipart/mixed; boundary=" +:+ dq +:+ v +:+ dq +:+ nl) in
  WriteString b ("--" +:+ v +:+ nl).

(** The body of the second [range] loop, for one name [k] and boundary [v].
    Indexing a Go map at a missing key gives the zero value. *)
Definition write_attachment (m : MailMessage) (b : list byte)
    (kv : string * string) : list byte :=
  let k := kv.1 in
  let v := kv.2 in
  let b := WriteString b (nl +:+ nl +:+ "--" +:+ v +:+ nl) in
  let b := WriteString b
    ("Content-Type: application/octet-stream; name=" +:+ dq +:+ k +:+ dq +:+ nl) in
  let b := WriteString b ("Content-Description: " +:+ k +:+ nl) in
  let b := WriteString b
    ("Content-Disposition: attachment; filename=" +:+ dq +:+ k +:+ dq
     +:+ "; size=" +:+ pretty (default 0%Z (attachmentLengths m !! k)) +:+ nl) in
  let b := WriteString b ("Content-Transfer-Encoding: base64" +:+ nl +:+ nl) in
  let b := Write b (default [] (attachments m !! k)) in
  WriteString b (nl +:+ "--" +:+ v +:+ "--").

(** Go does not fix the order in which [range] visits a map, and two loops
    over the same map may differ.  [build] therefore takes the two
    enumerations of [attachmentBoundaries] that its loops go through;
    [range_of] says that a list is such an enumeration. *)
Definition range_of (mp : gmap string string) (l : list (string * string))
    : Prop :=
  l ≡ₚ map_to_list mp.

Definition build (hs ps : list (string * string)) (m : MailMessage)
    : MailMessage * option error :=
  if (Z.of_nat (length (body m)) =? 0)%Z then
    (m, Some (Errorf "Message body is empty"))
  else
    let body := body m in
    let encodedBody := base64.Encode body in
    let b := buf m in
    let b := WriteString b ("To: " +:+ strings.Join (to m) "," +:+ nl) in
    let b := WriteString b ("Subject: " +:+ subject m +:+ nl) in
    let b :=
      if (0 <? Z.of_nat (size (attachments m)))%Z
      then fold_left write_multipart_header hs b
      else b in
    let b := WriteString b ("Content-Transfer-Encoding: base64" +:+ nl) in
    let b := WriteString b ("MIME-Version: 1.0;" +:+ nl) in
    let b := WriteString b
      ("Content-Type: " +:+ contentType m +:+ "; charset=" +:+ dq +:+ "utf-8"
       +:+ dq +:+ ";" +:+ nl +:+ nl) in
    let b := Write b encodedBody in
    let b :=
      if (0 <? Z.of_nat (size (attachments m)))%Z
      then fold_left (write_attachment m) ps b
      else b in
    (with_buildCalled (with_buf m b) true, None).

Definition Bytes (hs ps : list (string * string)) (m : MailMessage)
    : MailMessage * (list byte * option error) :=
  if buildCalled m then (m, (buf m, None))
  else
    let '(m', err) := build hs ps m in
    (m', (buf m', err)).

(** ** net/smtp

    The SMTP client is an external collaborator.  [Send] is modelled by the
    sequence of client calls it makes; what each call returns is decided by
    a [Peer], which sees the calls made before it. *)
Inductive smtp_call : Type :=
| Dial (addr : string)
| Extension (ext : string)
| StartTLS (InsecureSkipVerify : bool) (ServerName : string)
| Mail (sender : string)
| Rcpt (recipient : string)
| Data
| WriterWrite (p : list byte)
| WriterClose
| Reset
| Quit.

Record Peer : Type := {
  answer : list smtp_call → smtp_call → option error;
  advertises : list smtp_call → string → bool
}.

(** Computations that extend the log of client calls. *)
Definition SMTP (A : Type) : Type := list smtp_call → A * list smtp_call.

Definition ret {A : Type} (a : A) : SMTP A := λ log, (a, log).

Definition bind {A B : Type} (c : SMTP A) (k : A → SMTP B) : SMTP B :=
  λ log, let '(a, log') := c log in k a log'.

Notation "x <- c ;; k" := (bind c (λ x, k))
  (at level 20, c at level 99, k at level 200, only parsing).

Definition call (p : Peer) (c : smtp_call) : SMTP (option error) :=
  λ log, (answer p log c, (log ++ [c])%list).

Definition ask_extension (p : Peer) (ext : string) : SMTP bool :=
  λ log, (advertises p log ext, (log ++ [Extension ext])%list).

(** [c.Reset(); c.Quit(); return err] *)
Definition abort (p : Peer) (err : error) : SMTP (option error) :=
  ignored <- call p Reset ;;
  ignored <- call p Quit ;;
  ret (Some err).

(** The [range m.to] loop: stops at the first recipient that is refused. *)
Fixpoint add_recipients (p : Peer) (rcpts : list string) : SMTP (option error) :=
  match rcpts with
  | [] => ret None
  | v :: rest =>
      err <- call p (Rcpt v) ;;
      match err with
      | Some e => ret (Some e)
      | None => add_recipients p rest
      end
  end.

(** [Send] from "set the from addr" to the end. *)
Definition deliver (p : Peer) (m : MailMessage) : SMTP (option error) :=
  err <- call p (Mail (from m)) ;;
  match err with
  | Some e => abort p e
  | None =>
      err <- add_recipients p (to m) ;;
      match err with
      | Some e => abort p e
      | None =>
          err <- call p Data ;;
          match err with
          | Some e => abort p e
          | None =>
              err <- call p (WriterWrite (buf m)) ;;
              match err with
              | Some e => abort p e
              | None =>
                  err <- call p WriterClose ;;
                  match err with
                  | Some e => abort p e
                  | None =>
                      ignored <- call p Quit ;;
                      ret None
                  end
              end
          end
      end
  end.

(** [Send] from [smtp.Dial] on, for the message [build] left behind. *)
Definition transcript (p : Peer) (m : MailMessage) (smtpUri : string)
    : SMTP (option error) :=
  err <- call p (Dial smtpUri) ;;
  match err with
  | Some e => ret (Some e)
  | None =>
      if tls m then
        ok <- ask_extension p "STARTTLS" ;;
        if ok then
          err <- call p (StartTLS true (server m)) ;;
          match err with
          | Some e => abort p e
          | None => deliver p m
          end
        else deliver p m
      else deliver p m
  end.

Definition Send (p : Peer) (hs ps : list (string * string)) (m : MailMessage)
    : MailMessage * (option error * list smtp_call) :=
  let '(m', err) := build hs ps m in
  match err with
  | Some e => (m', (Some e, []))
  | None =>
      let smtpUri :=
        if strings.Contains (server m') ":" then server m'
        else server m' +:+ ":" +:+ pretty (port m') in
      (m', transcript p m' smtpUri [])
  end.

(** ** Sequences of method calls

    A caller drives a message through its methods one after the other.
    [method] names one call with its arguments (and, for the calls that
    reach outside, the file system, token, enumerations or peer it meets);
    [invoke] is the message the call leaves behind. *)
Inductive method : Type :=
| CallAddAttachment (ReadFile : string → list byte * option error)
    (boundary : string) (pathToFile : string)
| CallSetBody (data : string)
| CallSetBodyBytes (data : list byte)
| CallSetContentType (ct : string)
| CallSubject (subject : string)
| CallBytes (hs ps : list (string * string))
| CallSend (p : Peer) (hs ps : list (string * string)).

Definition invoke (m : MailMessage) (c : method) : MailMessage :=
  match c with
  | CallAddAttachment ReadFile boundary pathToFile =>
      (AddAttachment ReadFile boundary pathToFile m).1
  | CallSetBody data => SetBody data m
  | CallSetBodyBytes data => SetBodyBytes data m
  | CallSetContentType ct => SetContentType ct m
  | CallSubject subject => Subject subject m
  | CallBytes hs ps => (Bytes hs ps m).1
  | CallSend p hs ps => (Send p hs ps m).1
  end.

Definition invoke_all (m : MailMessage) (calls : list method) : MailMessage :=
  fold_left invoke calls m.

(** A body-setting call with non-empty input. *)
Definition sets_body (c : method) : bool :=
  match c with
  | CallSetBody data => negb (String.eqb data EmptyString)
  | CallSetBodyBytes data => negb (Z.of_nat (length data) =? 0)%Z
  | _ => false
  end.

(** Messages a caller can hold: built by [New], then driven by methods. *)
Definition constructed (m : MailMessage) : Prop :=
  ∃ now server port from to usetls m0 calls,
    New now server port from to usetls = (Some m0, None)
    ∧ m = invoke_all m0 calls.

(** The layout of one attachment part in the output: separator, boundary
    line, the four headers with the [size] parameter, a blank line, the
    payload and the closing marker. *)
Definition attachment_part (name boundary : string) (size : Z)
    (payload : list byte) : list byte :=
  (String.list_byte_of_string
     (nl +:+ nl +:+ "--" +:+ boundary +:+ nl
      +:+ "Content-Type: application/octet-stream; name=" +:+ dq +:+ name
      +:+ dq +:+ nl
      +:+ "Content-Description: " +:+ name +:+ nl
      +:+ "Content-Disposition: attachment; filename=" +:+ dq +:+ name +:+ dq
      +:+ "; size=" +:+ pretty size +:+ nl
      +:+ "Content-Transfer-Encoding: base64" +:+ nl +:+ nl)
   ++ payload
   ++ String.list_byte_of_string (nl +:+ "--" +:+ boundary +:+ "--"))%list.

(** The address [Send] dials. *)
Definition dial_address (m : MailMessage) : string :=
  if strings.Contains (server m) ":" then server m
  else server m +:+ ":" +:+ pretty (port m).

(** Whether a client call starts a TLS handshake. *)
Definition is_StartTLS (c : smtp_call) : bool :=
  match c with
  | StartTLS _ _ => true
  | _ => false
  end.

(** A server that accepts every command and offers no extension. *)
Definition plain_peer : Peer :=
  {| answer := λ _ _, None; advertises := λ _ _, false |}.

(** A server that offers every extension and fails the TLS handshake. *)
Definition broken_tls_peer : Peer :=
  {| answer := λ _ c,
       if is_StartTLS c then Some (ProtocolError "tls: handshake failure")
       else None;
     advertises := λ _ _, true |}.

(** A file system with one ten-byte file. *)
Definition one_file (path : string) : list byte * option error :=
  if String.eqb path "/tmp/report.bin"
  then (String.list_byte_of_string "0123456789", None)
  else ([], Some (PathError "open: no such file or directory")).

(** The message of the specification's end-to-end scenarios, as [New]
    returns it, and the same message with the body "hello". *)
Definition scenario_message : MailMessage :=
  {| attachmentBoundaries := ∅;
     attachmentLengths := ∅;
     attachments := ∅;
     body := [];
     buf := [];
     contentType := "text/plain";
     from := "a@x.com";
     port := 25;
     server := "localhost";
     subject := "libsmtp - 2014-01-01 00:00:00 +0000 UTC";
     tls := false;
     to := ["b@x.com"];
     buildCalled := false |}.

Definition hello_message : MailMessage := SetBody "hello" scenario_message.

(** The same, asking for TLS. *)
Definition tls_hello_message : MailMessage :=
  {| attachmentBoundaries := ∅;
     attachmentLengths := ∅;
     attachments := ∅;
     body := String.list_byte_of_string "hello";
     buf := [];
     contentType := "text/plain";
     from := "a@x.com";
     port := 25;
     server := "localhost";
     subject := "libsmtp - 2014-01-01 00:00:00 +0000 UTC";
     tls := true;
     to := ["b@x.com"];
     buildCalled := false |}.

(** ** Vocabulary for the properties of whole call sequences *)

(** Calls that change fields of the message but neither serialize nor
    send it. *)
Definition is_setter (c : method) : bool :=
  match c with
  | CallBytes _ _ | CallSend _ _ _ => false
  | _ => true
  end.

(** Whether a client call belongs to the TLS negotiation. *)
Definition is_negotiation (c : smtp_call) : bool :=
  match c with
  | Extension _ | StartTLS _ _ => true
  | _ => false
  end.

(** The commands [Send] issues once the connection is negotiated, in the
    order of the source, up to the closing of the data stream. *)
Definition envelope_commands (m : MailMessage) : list smtp_call :=
  Mail (from m)
  :: (map Rcpt (to m) ++ [Data; WriterWrite (buf m); WriterClose])%list.

(** The three attachment maps describe the same attachments: they have the
    same names, each recorded length is the length of the stored bytes, and
    the stored bytes are the encoding of some content. *)
Definition maps_agree (m : MailMessage) : Prop :=
  dom (attachmentLengths m) = dom (attachments m)
  ∧ dom (attachmentBoundaries m) = dom (attachments m)
  ∧ ∀ k enc, attachments m !! k = Some enc →
      attachmentLengths m !! k = Some (Z.of_nat (length enc))
      ∧ ∃ B, enc = base64.Encode B.

(** The header block of a message without attachments. *)
Definition plain_headers (m : MailMessage) : string :=
  "To: " +:+ strings.Join (to m) "," +:+ nl
  +:+ "Subject: " +:+ subject m +:+ nl
  +:+ "Content-Transfer-Encoding: base64" +:+ nl
  +:+ "MIME-Version: 1.0;" +:+ nl
  +:+ "Content-Type: " +:+ contentType m +:+ "; charset=" +:+ dq +:+ "utf-8"
  +:+ dq +:+ ";" +:+ nl +:+ nl.

(** The pieces of the rendering of a message with attachments: the
    address lines, the multipart header pair of one boundary, and the
    content headers that precede the encoded body. *)
Definition address_headers (m : MailMessage) : string :=
  "To: " +:+ strings.Join (to m) "," +:+ nl
  +:+ "Subject: " +:+ subject m +:+ nl.

Definition multipart_header (boundary : string) : string :=
  "Content-Type: multipart/mixed; boundary=" +:+ dq +:+ boundary +:+ dq
  +:+ nl +:+ "--" +:+ boundary +:+ nl.

Definition content_headers (m : MailMessage) : string :=
  "Content-Transfer-Encoding: base64" +:+ nl
  +:+ "MIME-Version: 1.0;" +:+ nl
  +:+ "Content-Type: " +:+ contentType m +:+ "; charset=" +:+ dq +:+ "utf-8"
  +:+ dq +:+ ";" +:+ nl +:+ nl.

(** What one run of [build] writes, for the enumerations [hs] and [ps] its
    two loops go through: the address lines, the multipart header pairs
    when there are attachments, the content headers, the encoded body and
    the attachment parts when there are attachments. *)
Definition rendering (hs ps : list (string * string)) (m : MailMessage)
    : list byte :=
  (String.list_byte_of_string (address_headers m)
   ++ (if (0 <? Z.of_nat (size (attachments m)))%Z
       then concat (map (λ kv, String.list_byte_of_string
                                 (multipart_header kv.2)) hs)
       else [])
   ++ String.list_byte_of_string (content_headers m)
   ++ base64.Encode (body m)
   ++ (if (0 <? Z.of_nat (size (attachments m)))%Z
       then concat (map (λ kv,
                      attachment_part kv.1 kv.2
                        (default 0%Z (attachmentLengths m !! kv.1))
                        (default [] (attachments m !! kv.1))) ps)
       else []))%list.

(** The ways [Send] gets from a successful dial of [a] to the sender
    command, with the client calls [nego] made in between: TLS is not
    asked for; or it is and the server does not advertise STARTTLS; or it
    does and the handshake succeeds. *)
Definition negotiation (p : Peer) (m : MailMessage) (a : string)
    (nego : list smtp_call) : Prop :=
  (tls m = false ∧ nego = [])
  ∨ (tls m = true
     ∧ advertises p [Dial a] "STARTTLS" = false
     ∧ nego = [Extension "STARTTLS"])
  ∨ (tls m = true
     ∧ advertises p [Dial a] "STARTTLS" = true
     ∧ answer p [Dial a; Extension "STARTTLS"] (StartTLS true (server m))
       = None
     ∧ nego = [Extension "STARTTLS"; StartTLS true (server m)]).

(** A server that cannot be reached. *)
Definition unreachable_peer : Peer :=
  {| answer := λ _ c,
       match c with
       | Dial _ => Some (ProtocolError "dial tcp: connection refused")
       | _ => None
       end;
     advertises := λ _ _, false |}.

(** A server that refuses the recipient c@x.com. *)
Definition picky_peer : Peer :=
  {| answer := λ _ c,
       match c with
       | Rcpt r =>
           if String.eqb r "c@x.com"
           then Some (ProtocolError "550 no such user")
           else None
       | _ => None
       end;
     advertises := λ _ _, false |}.

(** A server that offers every extension, completes the handshake and
    refuses the recipient c@x.com. *)
Definition tls_refusing_peer : Peer :=
  {| answer := λ _ c,
       match c with
       | Rcpt r =>
           if String.eqb r "c@x.com"
           then Some (ProtocolError "550 no such user")
           else None
       | _ => None
       end;
     advertises := λ _ _, true |}.

(** A server that offers every extension and accepts every command. *)
Definition tls_peer : Peer :=
  {| answer := λ _ _, None; advertises := λ _ _, true |}.

(** A message to three recipients, with the body "hello". *)
Definition three_rcpt_message : MailMessage :=
  {| attachmentBoundaries := ∅;
     attachmentLengths := ∅;
     attachments := ∅;
     body := String.list_byte_of_string "hello";
     buf := [];
     contentType := "text/plain";
     from := "a@x.com";
     port := 2525;
     server := "mail.example.org";
     subject := "greetings";
     tls := false;
     to := ["b@x.com"; "c@x.com"; "d@x.com"];
     buildCalled := false |}.

(** The same message to three recipients, asking for TLS. *)
Definition three_rcpt_tls_message : MailMessage :=
  {| attachmentBoundaries := ∅;
     attachmentLengths := ∅;
     attachments := ∅;
     body := String.list_byte_of_string "hello";
     buf := [];
     contentType := "text/plain";
     from := "a@x.com";
     port := 2525;
     server := "mail.example.org";
     subject := "greetings";
     tls := true;
     to := ["b@x.com"; "c@x.com"; "d@x.com"];
     buildCalled := false |}.

(** A message whose server carries its own port, asking for TLS. *)
Definition explicit_port_message : MailMessage :=
  {| attachmentBoundaries := ∅;
     attachmentLengths := ∅;
     attachments := ∅;
     body := String.list_byte_of_string "hello";
     buf := [];
     contentType := "text/plain";
     from := "a@x.com";
     port := 25;
     server := "mail.example.org:587";
     subject := "greetings";
     tls := true;
     to := ["b@x.com"];
     buildCalled := false |}.

(** A file system with two files of the same name in two directories. *)
Definition two_notes (path : string) : list byte * option error :=
  if String.eqb path "/a/note.txt"
  then (String.list_byte_of_string "one", None)
  else if String.eqb path "/b/note.txt"
  then (String.list_byte_of_string "second", None)
  else ([], Some (PathError "open: no such file or directory")).

(** * Properties *)

Local Open Scope Z_scope.

(** ** Bytes and strings *)

Lemma byte_to_Z_range (b : byte) : 0 <= byte_to_Z b < 256.
Proof.
  unfold byte_to_Z. pose proof (Byte.to_N_bounded b). lia.
Qed.

Lemma byte_of_to_Z (b : byte) : byte_of_Z (byte_to_Z b) = b.
Proof.
  unfold byte_of_Z, byte_to_Z. rewrite N2Z.id, Byte.of_to_N. reflexivity.
Qed.

Lemma length_bytes_of_string (s : string) :
  length (String.list_byte_of_string s) = String.length s.
Proof.
  unfold String.list_byte_of_string. rewrite length_map.
  induction s as [|c s IH]; simpl; [reflexivity | now rewrite IH].
Qed.

Lemma bytes_of_string_app (s t : string) :
  String.list_byte_of_string (s +:+ t)
  = (String.list_byte_of_string s ++ String.list_byte_of_string t)%list.
Proof.
  unfold String.list_byte_of_string.
  induction s as [|c s IH]; simpl; [reflexivity | now rewrite IH].
Qed.

(** Splits the bytes of a concatenation at every [+:+] written in the
    goal. *)
Ltac split_bytes :=
  repeat match goal with
  | |- context [String.list_byte_of_string (?s +:+ ?t)] =>
      rewrite (bytes_of_string_app s t)
  end.

(** ** base64 *)

(** Lists three elements at a time, the way [Encode] consumes them. *)
Lemma list_ind3 {A : Type} (P : list A → Prop) :
  P [] → (∀ a, P [a]) → (∀ a b, P [a; b]) →
  (∀ a b c l, P l → P (a :: b :: c :: l)) →
  ∀ l, P l.
Proof.
  intros H0 H1 H2 H3.
  assert (Hall : ∀ l, P l ∧ (∀ a, P (a :: l)) ∧ (∀ a b, P (a :: b :: l))).
  { induction l as [|x l (IHa & IHb & IHc)].
    - repeat split; auto.
    - repeat split; auto. }
  intros l. apply Hall.
Qed.

Lemma EncodedLen_step (n : Z) :
  base64.EncodedLen (n + 3) = base64.EncodedLen n + 4.
Proof.
  unfold base64.EncodedLen.
  replace (n + 3 + 2) with (n + 2 + 1 * 3) by lia.
  rewrite Z.div_add by lia. lia.
Qed.

Lemma Encode_length (src : list byte) :
  Z.of_nat (length (base64.Encode src))
  = base64.EncodedLen (Z.of_nat (length src)).
Proof.
  induction src as [| a | a b | a b c l IH] using list_ind3;
    try reflexivity.
  cbn [base64.Encode length].
  replace (Z.of_nat (S (S (S (length l))))) with (Z.of_nat (length l) + 3)
    by lia.
  rewrite EncodedLen_step, <- IH. lia.
Qed.

Lemma EncodedLen_grows (n : Z) : 0 < n → n < base64.EncodedLen n.
Proof.
  intros Hn. unfold base64.EncodedLen.
  pose proof (Z.div_mod (n + 2) 3 ltac:(lia)) as Hdm.
  pose proof (Z.mod_pos_bound (n + 2) 3 ltac:(lia)) as Hb.
  lia.
Qed.

Lemma decodeMap_encode (i : Z) :
  0 <= i < 64 → base64.decodeMap (base64.encode i) = Some i.
Proof.
  intros Hi.
  assert (Hnat : ∀ n : nat, (n < 64)%nat →
            base64.decodeMap (nth n base64.encodeStd "000"%byte)
            = Some (Z.of_nat n)).
  { intros n Hn.
    do 64 (destruct n as [|n]; [reflexivity|]).
    lia. }
  unfold base64.encode.
  rewrite <- (Z2Nat.id i) at 2 by lia.
  apply Hnat. lia.
Qed.

Lemma decodeMap_padding : base64.decodeMap base64.StdPadding = None.
Proof. reflexivity. Qed.

(** The shifts, masks and ors of a quantum, as arithmetic. *)
Lemma lor_disjoint (x lo k : Z) :
  0 <= k → 0 <= lo < 2 ^ k → x mod 2 ^ k = 0 → Z.lor x lo = x + lo.
Proof.
  intros Hk Hlo Hx.
  assert (Hland : Z.land x lo = 0).
  { apply Z.bits_inj'. intros n Hn.
    rewrite Z.land_spec, Z.bits_0.
    destruct (Z.lt_ge_cases n k) as [Hlt | Hge].
    - rewrite <- (Z.mod_pow2_bits_low x k n) by lia.
      rewrite Hx, Z.bits_0. reflexivity.
    - rewrite <- (Z.mod_small lo (2 ^ k)) by lia.
      rewrite Z.mod_pow2_bits_high by lia.
      apply andb_false_r. }
  rewrite <- Z.lxor_lor by exact Hland.
  symmetry. apply Z.add_nocarry_lxor. exact Hland.
Qed.

Lemma land_63 (x : Z) : Z.land x 63 = x mod 64.
Proof. change 63 with (Z.ones 6). rewrite Z.land_ones by lia. reflexivity. Qed.

Lemma land_255 (x : Z) : Z.land x 255 = x mod 256.
Proof. change 255 with (Z.ones 8). rewrite Z.land_ones by lia. reflexivity. Qed.

Ltac shifts_to_arith :=
  rewrite ?land_63, ?land_255, ?Z.shiftr_div_pow2, ?Z.shiftl_mul_pow2 by lia;
  change (2 ^ 18) with 262144; change (2 ^ 16) with 65536;
  change (2 ^ 12) with 4096; change (2 ^ 8) with 256; change (2 ^ 6) with 64.

Ltac divmod := Z.div_mod_to_equations; lia.

Lemma quantum_value3 (a b c : Z) :
  0 <= a < 256 → 0 <= b < 256 → 0 <= c < 256 →
  Z.lor (Z.lor (Z.shiftl a 16) (Z.shiftl b 8)) c = a * 65536 + b * 256 + c.
Proof.
  intros Ha Hb Hc. shifts_to_arith.
  rewrite (lor_disjoint (a * 65536) (b * 256) 16) by (try divmod; lia).
  rewrite (lor_disjoint _ c 8) by (try divmod; lia).
  reflexivity.
Qed.

Lemma quantum_value2 (a b : Z) :
  0 <= a < 256 → 0 <= b < 256 →
  Z.lor (Z.shiftl a 16) (Z.shiftl b 8) = a * 65536 + b * 256.
Proof.
  intros Ha Hb. shifts_to_arith.
  rewrite (lor_disjoint (a * 65536) (b * 256) 16) by (try divmod; lia).
  reflexivity.
Qed.

Lemma sextets_value4 (d0 d1 d2 d3 : Z) :
  0 <= d0 < 64 → 0 <= d1 < 64 → 0 <= d2 < 64 → 0 <= d3 < 64 →
  Z.lor (Z.lor (Z.lor (Z.shiftl d0 18) (Z.shiftl d1 12)) (Z.shiftl d2 6)) d3
  = d0 * 262144 + d1 * 4096 + d2 * 64 + d3.
Proof.
  intros H0 H1 H2 H3. shifts_to_arith.
  rewrite (lor_disjoint (d0 * 262144) (d1 * 4096) 18) by (try divmod; lia).
  rewrite (lor_disjoint _ (d2 * 64) 12) by (try divmod; lia).
  rewrite (lor_disjoint _ d3 6) by (try divmod; lia).
  reflexivity.
Qed.

Lemma sextets_value3 (d0 d1 d2 : Z) :
  0 <= d0 < 64 → 0 <= d1 < 64 → 0 <= d2 < 64 →
  Z.lor (Z.lor (Z.shiftl d0 18) (Z.shiftl d1 12)) (Z.shiftl d2 6)
  = d0 * 262144 + d1 * 4096 + d2 * 64.
Proof.
  intros H0 H1 H2. shifts_to_arith.
  rewrite (lor_disjoint (d0 * 262144) (d1 * 4096) 18) by (try divmod; lia).
  rewrite (lor_disjoint _ (d2 * 64) 12) by (try divmod; lia).
  reflexivity.
Qed.

Lemma sextets_value2 (d0 d1 : Z) :
  0 <= d0 < 64 → 0 <= d1 < 64 →
  Z.lor (Z.shiftl d0 18) (Z.shiftl d1 12) = d0 * 262144 + d1 * 4096.
Proof.
  intros H0 H1. shifts_to_arith.
  rewrite (lor_disjoint (d0 * 262144) (d1 * 4096) 18) by (try divmod; lia).
  reflexivity.
Qed.

Lemma sextet_range (x : Z) : 0 <= Z.land x 63 < 64.
Proof. rewrite land_63. apply Z.mod_pos_bound. lia. Qed.

(** Decoding the characters of a final one-byte quantum. *)
Lemma quantum1 (a : Z) :
  0 <= a < 256 →
  let val := Z.shiftl a 16 in
  let val' := Z.lor (Z.shiftl (Z.land (Z.shiftr val 18) 63) 18)
                    (Z.shiftl (Z.land (Z.shiftr val 12) 63) 12) in
  Z.land (Z.shiftr val' 16) 255 = a.
Proof.
  intros Ha val val'. subst val val'.
  rewrite sextets_value2 by apply sextet_range.
  shifts_to_arith. divmod.
Qed.

(** Decoding the characters of a final two-byte quantum. *)
Lemma quantum2 (a b : Z) :
  0 <= a < 256 → 0 <= b < 256 →
  let val := Z.lor (Z.shiftl a 16) (Z.shiftl b 8) in
  let val' := Z.lor (Z.lor (Z.shiftl (Z.land (Z.shiftr val 18) 63) 18)
                           (Z.shiftl (Z.land (Z.shiftr val 12) 63) 12))
                    (Z.shiftl (Z.land (Z.shiftr val 6) 63) 6) in
  Z.land (Z.shiftr val' 16) 255 = a ∧ Z.land (Z.shiftr val' 8) 255 = b.
Proof.
  intros Ha Hb val val'. subst val val'.
  rewrite sextets_value3 by apply sextet_range.
  rewrite quantum_value2 by assumption.
  shifts_to_arith. split; divmod.
Qed.

(** Decoding the characters of a full three-byte quantum. *)
Lemma quantum3 (a b c : Z) :
  0 <= a < 256 → 0 <= b < 256 → 0 <= c < 256 →
  let val := Z.lor (Z.lor (Z.shiftl a 16) (Z.shiftl b 8)) c in
  let val' := Z.lor (Z.lor (Z.lor (Z.shiftl (Z.land (Z.shiftr val 18) 63) 18)
                                  (Z.shiftl (Z.land (Z.shiftr val 12) 63) 12))
                           (Z.shiftl (Z.land (Z.shiftr val 6) 63) 6))
                    (Z.land val 63) in
  Z.land (Z.shiftr val' 16) 255 = a
  ∧ Z.land (Z.shiftr val' 8) 255 = b
  ∧ Z.land val' 255 = c.
Proof.
  intros Ha Hb Hc val val'. subst val val'.
  rewrite sextets_value4 by apply sextet_range.
  rewrite quantum_value3 by assumption.
  shifts_to_arith. repeat split; divmod.
Qed.

Lemma Decode_Encode (src : list byte) :
  base64.Decode (base64.Encode src) = Some src.
Proof.
  induction src as [| a | a b | a b c l IH] using list_ind3.
  - reflexivity.
  - cbn [base64.Encode base64.Decode].
    rewrite !decodeMap_encode by apply sextet_range.
    rewrite decodeMap_padding.
    replace (Byte.eqb base64.StdPadding base64.StdPadding) with true
      by reflexivity.
    cbn [andb].
    rewrite (quantum1 _ (byte_to_Z_range a)), byte_of_to_Z.
    reflexivity.
  - cbn [base64.Encode base64.Decode].
    rewrite !decodeMap_encode by apply sextet_range.
    rewrite decodeMap_padding.
    replace (Byte.eqb base64.StdPadding base64.StdPadding) with true
      by reflexivity.
    destruct (quantum2 _ _ (byte_to_Z_range a) (byte_to_Z_range b))
      as [-> ->].
    rewrite !byte_of_to_Z. reflexivity.
  - cbn [base64.Encode base64.Decode].
    rewrite !decodeMap_encode by apply sextet_range.
    rewrite IH.
    destruct (quantum3 _ _ _ (byte_to_Z_range a) (byte_to_Z_range b)
                (byte_to_Z_range c)) as (-> & -> & ->).
    rewrite !byte_of_to_Z. reflexivity.
Qed.

(** ** Buffers *)

Lemma WriteString_app (b : list byte) (s : string) :
  WriteString b s = (b ++ WriteString [] s)%list.
Proof. reflexivity. Qed.

Lemma write_multipart_header_app (b : list byte) (kv : string * string) :
  write_multipart_header b kv = (b ++ write_multipart_header [] kv)%list.
Proof.
  unfold write_multipart_header, WriteString. cbn [app].
  now rewrite <- !app_assoc.
Qed.

Lemma write_attachment_app (m : MailMessage) (b : list byte)
    (kv : string * string) :
  write_attachment m b kv = (b ++ write_attachment m [] kv)%list.
Proof.
  unfold write_attachment, WriteString, Write. cbn [app].
  now rewrite <- !app_assoc.
Qed.

Lemma fold_write_attachment (m : MailMessage) (ps : list (string * string))
    (b : list byte) :
  fold_left (write_attachment m) ps b
  = (b ++ concat (map (write_attachment m []) ps))%list.
Proof.
  revert b. induction ps as [|kv ps IH]; intros b; cbn [fold_left map concat].
  - now rewrite app_nil_r.
  - rewrite IH, write_attachment_app. now rewrite <- app_assoc.
Qed.

Lemma fold_write_multipart_header (hs : list (string * string))
    (b : list byte) :
  fold_left write_multipart_header hs b
  = (b ++ concat (map (write_multipart_header []) hs))%list.
Proof.
  revert b. induction hs as [|kv hs IH]; intros b; cbn [fold_left map concat].
  - now rewrite app_nil_r.
  - rewrite IH, write_multipart_header_app. now rewrite <- app_assoc.
Qed.

(** One turn of the second loop writes one attachment part. *)
Lemma write_attachment_part (m : MailMessage) (k v : string) :
  write_attachment m [] (k, v)
  = attachment_part k v (default 0 (attachmentLengths m !! k))
      (default [] (attachments m !! k)).
Proof.
  unfold write_attachment, attachment_part, WriteString, Write.
  cbn [fst snd app].
  split_bytes. rewrite <- !app_assoc. reflexivity.
Qed.

Lemma write_multipart_header_text (kv : string * string) :
  write_multipart_header [] kv
  = String.list_byte_of_string (multipart_header kv.2).
Proof.
  unfold write_multipart_header, multipart_header, WriteString.
  cbn [app]. split_bytes. rewrite <- !app_assoc. reflexivity.
Qed.

(** A successful [build] leaves the buffer it found followed by the
    rendering of the message, and marks the message as built. *)
Lemma build_renders (hs ps : list (string * string)) (m : MailMessage) :
  body m ≠ [] →
  rendering hs ps m ≠ []
  ∧ build hs ps m
    = (with_buildCalled (with_buf m (buf m ++ rendering hs ps m)%list) true,
       None).
Proof.
  intros Hb. split.
  { unfold rendering, address_headers. cbn. discriminate. }
  unfold build, rendering.
  destruct (Z.eqb_spec (Z.of_nat (length (body m))) 0) as [Hz | _].
  { destruct (body m); [congruence | discriminate]. }
  cbv zeta.
  destruct (0 <? Z.of_nat (size (attachments m))).
  - rewrite fold_write_attachment, fold_write_multipart_header.
    rewrite (map_ext _ _ write_multipart_header_text).
    rewrite (map_ext (write_attachment m [])
               (λ kv, attachment_part kv.1 kv.2
                        (default 0 (attachmentLengths m !! kv.1))
                        (default [] (attachments m !! kv.1)))).
    2:{ intros [k v]. apply write_attachment_part. }
    unfold WriteString, Write, address_headers, content_headers.
    split_bytes. rewrite <- !app_assoc. reflexivity.
  - unfold WriteString, Write, address_headers, content_headers.
    split_bytes. rewrite <- !app_assoc, app_nil_r. reflexivity.
Qed.

(** ** Setters and the fields they leave alone *)

Lemma body_AddAttachment ReadFile boundary path (m : MailMessage) :
  body (AddAttachment ReadFile boundary path m).1 = body m
  ∧ buildCalled (AddAttachment ReadFile boundary path m).1 = buildCalled m.
Proof.
  unfold AddAttachment.
  destruct (negb (String.eqb path EmptyString)); [|auto].
  destruct (ReadFile path) as [b [e|]]; auto.
Qed.

Lemma build_state (hs ps : list (string * string)) (m : MailMessage) :
  body (build hs ps m).1 = body m
  ∧ tls (build hs ps m).1 = tls m
  ∧ server (build hs ps m).1 = server m
  ∧ port (build hs ps m).1 = port m
  ∧ from (build hs ps m).1 = from m
  ∧ to (build hs ps m).1 = to m.
Proof.
  unfold build. destruct (Z.of_nat (length (body m)) =? 0); auto 10.
Qed.

Lemma build_empty_body (hs ps : list (string * string)) (m : MailMessage) :
  body m = [] → build hs ps m = (m, Some (Errorf "Message body is empty")).
Proof. intros Hb. unfold build. rewrite Hb. reflexivity. Qed.

Lemma build_nonempty_body (hs ps : list (string * string)) (m : MailMessage) :
  body m ≠ [] →
  ∃ out, build hs ps m = (with_buildCalled (with_buf m out) true, None).
Proof.
  intros Hb. unfold build.
  destruct (Z.eqb_spec (Z.of_nat (length (body m))) 0) as [Hz | _].
  - destruct (body m); [congruence | discriminate].
  - eauto.
Qed.

Lemma build_marks_built (hs ps : list (string * string)) (m : MailMessage) :
  buildCalled (build hs ps m).1 = true → buildCalled m = true ∨ body m ≠ [].
Proof.
  unfold build.
  destruct (Z.eqb_spec (Z.of_nat (length (body m))) 0) as [Hz | Hnz];
    cbn [fst]; [auto|].
  intros _. right. intros Hb. rewrite Hb in Hnz. now apply Hnz.
Qed.

Lemma Send_state (p : Peer) (hs ps : list (string * string)) (m : MailMessage) :
  (Send p hs ps m).1 = (build hs ps m).1.
Proof.
  unfold Send. destruct (build hs ps m) as [m' [e|]]; reflexivity.
Qed.

Lemma Bytes_state (hs ps : list (string * string)) (m : MailMessage) :
  (Bytes hs ps m).1 = if buildCalled m then m else (build hs ps m).1.
Proof.
  unfold Bytes. destruct (buildCalled m); [reflexivity|].
  destruct (build hs ps m); reflexivity.
Qed.

(** [Bytes] on a message that was already built hands back the buffer. *)
Lemma Bytes_cached (hs ps : list (string * string)) (m : MailMessage) :
  buildCalled m = true → Bytes hs ps m = (m, (buf m, None)).
Proof. intros Hb. unfold Bytes. now rewrite Hb. Qed.

Lemma SetContentType_state (ct : string) (m : MailMessage) :
  body (SetContentType ct m) = body m
  ∧ buildCalled (SetContentType ct m) = buildCalled m.
Proof.
  unfold SetContentType. destruct (0 <? Z.of_nat (String.length ct)); auto.
Qed.

(** The body only grows, whatever is called. *)
Lemma body_invoke (m : MailMessage) (c : method) :
  (length (body m) <= length (body (invoke m c)))%nat.
Proof.
  destruct c; cbn [invoke].
  - now rewrite (proj1 (body_AddAttachment _ _ _ _)).
  - unfold SetBody, WriteString. cbn [body with_body]. rewrite length_app. lia.
  - unfold SetBodyBytes, Write. cbn [body with_body]. rewrite length_app. lia.
  - now rewrite (proj1 (SetContentType_state _ _)).
  - reflexivity.
  - rewrite Bytes_state. destruct (buildCalled m); [lia|].
    now rewrite (proj1 (build_state _ _ _)).
  - rewrite Send_state. now rewrite (proj1 (build_state _ _ _)).
Qed.

Lemma body_invoke_all (calls : list method) (m : MailMessage) :
  (length (body m) <= length (body (invoke_all m calls)))%nat.
Proof.
  unfold invoke_all. revert m.
  induction calls as [|c calls IH]; intros m; cbn [fold_left]; [lia|].
  pose proof (body_invoke m c). pose proof (IH (invoke m c)). lia.
Qed.

Lemma sets_body_nonempty (m : MailMessage) (c : method) :
  sets_body c = true → (0 < length (body (invoke m c)))%nat.
Proof.
  destruct c; cbn [sets_body invoke]; try discriminate.
  - intros Hd. unfold SetBody, WriteString. cbn [body with_body].
    rewrite length_app, length_bytes_of_string.
    destruct data; [discriminate | cbn; lia].
  - intros Hd. unfold SetBodyBytes, Write. cbn [body with_body].
    rewrite length_app.
    destruct data; [discriminate | cbn; lia].
Qed.

Lemma body_after_sets_body (calls : list method) (m : MailMessage) :
  existsb sets_body calls = true → body (invoke_all m calls) ≠ [].
Proof.
  unfold invoke_all. revert m.
  induction calls as [|c calls IH]; intros m; cbn [existsb fold_left];
    [discriminate|].
  intros Hex. apply orb_true_iff in Hex as [Hc | Hrest].
  - pose proof (sets_body_nonempty m c Hc) as Hlen.
    pose proof (body_invoke_all calls (invoke m c)) as Hgrow.
    unfold invoke_all in Hgrow.
    intros Hnil. rewrite Hnil in Hgrow. cbn in Hgrow. lia.
  - now apply IH.
Qed.

(** A message is marked as built only once its body is non-empty. *)
Lemma built_invoke (m : MailMessage) (c : method) :
  (buildCalled m = true → body m ≠ []) →
  buildCalled (invoke m c) = true → body (invoke m c) ≠ [].
Proof.
  intros Hinv.
  assert (Hkeep : body m ≠ [] → body (invoke m c) ≠ []).
  { intros Hb Hnil. pose proof (body_invoke m c) as Hle.
    rewrite Hnil in Hle. destruct (body m); [congruence | cbn in Hle; lia]. }
  destruct c; cbn [invoke] in *.
  - rewrite (proj2 (body_AddAttachment _ _ _ _)). auto.
  - unfold SetBody at 1. cbn [buildCalled with_body]. auto.
  - unfold SetBodyBytes at 1. cbn [buildCalled with_body]. auto.
  - rewrite (proj2 (SetContentType_state _ _)). auto.
  - unfold Subject at 1. cbn [buildCalled with_subject]. auto.
  - rewrite Bytes_state in *. destruct (buildCalled m) eqn:Hbc; [auto|].
    intros Hb. apply build_marks_built in Hb as [Hb | Hb]; [congruence|].
    auto.
  - rewrite Send_state in *.
    intros Hb. apply build_marks_built in Hb as [Hb | Hb]; auto.
Qed.

Lemma constructed_built (m : MailMessage) :
  constructed m → buildCalled m = true → body m ≠ [].
Proof.
  intros (now & srv & prt & frm & rcpts & usetls & m0 & calls & Hnew & ->).
  assert (H0 : buildCalled m0 = true → body m0 ≠ []).
  { unfold New in Hnew.
    destruct (String.eqb srv EmptyString); [discriminate|].
    destruct (String.eqb frm EmptyString); [discriminate|].
    destruct (Z.of_nat (length rcpts) =? 0); [discriminate|].
    injection Hnew as <-. discriminate. }
  clear Hnew. unfold invoke_all. revert m0 H0.
  induction calls as [|c calls IH]; intros m0 H0; cbn [fold_left]; [exact H0|].
  apply IH. now apply built_invoke.
Qed.

(** ** End-to-end scenarios of the specification *)

Example New_scenario :
  New "2014-01-01 00:00:00 +0000 UTC" "localhost" 0 "a@x.com" ["b@x.com"] false
  = (Some scenario_message, None).
Proof. reflexivity. Qed.

Example Encode_hello :
  base64.Encode (String.list_byte_of_string "hello")
  = String.list_byte_of_string "aGVsbG8=".
Proof. reflexivity. Qed.

Example Decode_hello :
  base64.Decode (String.list_byte_of_string "aGVsbG8=")
  = Some (String.list_byte_of_string "hello").
Proof. reflexivity. Qed.

Example Base_examples :
  filepath.Base "/tmp/report.bin" = "report.bin"
  ∧ filepath.Base "dir/sub/" = "sub"
  ∧ filepath.Base "///" = "/"
  ∧ filepath.Base "plain" = "plain".
Proof. repeat split. Qed.

Example range_of_empty : range_of ∅ [].
Proof. unfold range_of. now rewrite map_to_list_empty. Qed.

Example range_of_report :
  range_of (attachmentBoundaries
              (AddAttachment one_file "k3x9" "/tmp/report.bin" hello_message).1)
    [("report.bin", "k3x9")].
Proof.
  unfold range_of.
  replace (map_to_list _) with [("report.bin", "k3x9")]
    by (vm_compute; reflexivity).
  reflexivity.
Qed.

(** ** Serialization *)

(** A successful [build] appends a non-empty rendering to whatever the
    buffer already holds; it does not look at [buildCalled]. *)
Lemma build_appends (hs ps : list (string * string)) (m : MailMessage) :
  body m ≠ [] →
  ∃ out, out ≠ []
    ∧ build hs ps m
      = (with_buildCalled (with_buf m (buf m ++ out)%list) true, None).
Proof.
  intros Hb. unfold build.
  destruct (Z.eqb_spec (Z.of_nat (length (body m))) 0) as [Hz | _].
  { destruct (body m); [congruence | discriminate]. }
  cbv zeta.
  destruct (0 <? Z.of_nat (size (attachments m)));
    rewrite ?fold_write_attachment, ?fold_write_multipart_header;
    unfold WriteString, Write; rewrite <- !app_assoc;
    (eexists; split; cycle 1; [reflexivity | cbn; discriminate]).
Qed.

(** C1: serialization is meant to run once, and [Bytes] keeps to it, but
    [Send] calls [build] again.  On the scenario message with body "hello",
    [Bytes] returns a non-empty output [out]; a following [Send] leaves
    [out ++ out] in the buffer and writes [out ++ out] to the data stream,
    and a later [Bytes] returns [out ++ out]. *)
Theorem Send_after_Bytes_appends_again :
  ∃ m1 m2 out,
    range_of (attachmentBoundaries hello_message) []
    ∧ Bytes [] [] hello_message = (m1, (out, None))
    ∧ out ≠ []
    ∧ Send plain_peer [] [] m1
      = (m2, (None, [Dial "localhost:25"; Mail "a@x.com"; Rcpt "b@x.com"; Data;
                     WriterWrite (out ++ out); WriterClose; Quit]))
    ∧ buf m2 = (out ++ out)%list
    ∧ Bytes [] [] m2 = (m2, ((out ++ out)%list, None)).
Proof.
  do 3 eexists.
  split; [exact range_of_empty|].
  split; [vm_compute; reflexivity|].
  split; [discriminate|].
  split; [vm_compute; reflexivity|].
  split; reflexivity.
Qed.

(** [Send] on a message that is already built still appends: the buffer
    after it is strictly longer than before. *)
Lemma Send_rebuilds (p : Peer) (hs ps : list (string * string))
    (m : MailMessage) :
  body m ≠ [] →
  ∃ out, out ≠ [] ∧ buf (Send p hs ps m).1 = (buf m ++ out)%list.
Proof.
  intros Hb. destruct (build_appends hs ps m Hb) as (out & Hout & Hbuild).
  exists out. split; [exact Hout|].
  rewrite Send_state, Hbuild. reflexivity.
Qed.

(** ** Construction *)

(** C2: [New] fails with the error naming the first missing field when the
    server, the sender or the recipient list is empty, returning no message;
    otherwise it succeeds, and the port of the message is 25 when the given
    port is not positive and the given port otherwise. *)
Theorem New_validates_and_normalizes (now srv : string) (port0 : Z)
    (sender : string) (rcpts : list string) (usetls : bool) :
  (srv = EmptyString →
     New now srv port0 sender rcpts usetls
     = (None, Some (Errorf "SMTP server required")))
  ∧ (srv ≠ EmptyString → sender = EmptyString →
     New now srv port0 sender rcpts usetls
     = (None, Some (Errorf "SMTP sender required")))
  ∧ (srv ≠ EmptyString → sender ≠ EmptyString → rcpts = [] →
     New now srv port0 sender rcpts usetls
     = (None, Some (Errorf "Mail recipient(s) required")))
  ∧ (srv ≠ EmptyString → sender ≠ EmptyString → rcpts ≠ [] →
     ∃ m, New now srv port0 sender rcpts usetls = (Some m, None)
          ∧ port m = (if port0 <=? 0 then 25 else port0)
          ∧ (port0 <= 0 → port m = 25)
          ∧ (0 < port0 → port m = port0)
          ∧ server m = srv
          ∧ from m = sender
          ∧ to m = rcpts
          ∧ tls m = usetls).
Proof.
  unfold New.
  destruct (String.eqb_spec srv EmptyString) as [Hs | Hs].
  { repeat split; intros; congruence. }
  destruct (String.eqb_spec sender EmptyString) as [Hf | Hf].
  { repeat split; intros; congruence. }
  destruct rcpts as [|r rcpts].
  { repeat split; intros; congruence. }
  cbn [length]. rewrite (proj2 (Z.eqb_neq _ 0)) by lia.
  split; [congruence|]. split; [congruence|]. split; [congruence|].
  intros _ _ _. eexists. split; [reflexivity|]. cbn.
  destruct (Z.leb_spec port0 0); repeat split; auto; lia.
Qed.

Lemma New_validates_and_normalizes_witness :
  New "now" EmptyString 587 "a@x.com" ["b@x.com"] true
  = (None, Some (Errorf "SMTP server required"))
  ∧ New "now" "localhost" 587 EmptyString ["b@x.com"] true
    = (None, Some (Errorf "SMTP sender required"))
  ∧ New "now" "localhost" 587 "a@x.com" [] true
    = (None, Some (Errorf "Mail recipient(s) required"))
  ∧ (∃ m, New "now" "localhost" (-3) "a@x.com" ["b@x.com"] true
          = (Some m, None) ∧ port m = 25)
  ∧ (∃ m, New "now" "localhost" 587 "a@x.com" ["b@x.com"] true
          = (Some m, None) ∧ port m = 587).
Proof.
  split.
  { apply (New_validates_and_normalizes "now" EmptyString 587 "a@x.com"
             ["b@x.com"] true). reflexivity. }
  split.
  { apply (New_validates_and_normalizes "now" "localhost" 587 EmptyString
             ["b@x.com"] true); [discriminate | reflexivity]. }
  split.
  { apply (New_validates_and_normalizes "now" "localhost" 587 "a@x.com"
             [] true); [discriminate | discriminate | reflexivity]. }
  split.
  { destruct (New_validates_and_normalizes "now" "localhost" (-3) "a@x.com"
                ["b@x.com"] true) as (_ & _ & _ & H).
    destruct H as (m & Hnew & _ & Hport & _);
      [discriminate | discriminate | discriminate |].
    exists m. split; [exact Hnew | apply Hport; lia]. }
  { destruct (New_validates_and_normalizes "now" "localhost" 587 "a@x.com"
                ["b@x.com"] true) as (_ & _ & _ & H).
    destruct H as (m & Hnew & _ & _ & Hport & _);
      [discriminate | discriminate | discriminate |].
    exists m. split; [exact Hnew | apply Hport; lia]. }
Defined.

(** ** Body and serialization *)

(** C3: on a message whose body is empty, [build] fails with the empty-body
    error, and so do [Send] (before any network call) and, on a message a
    caller can hold, [Bytes]; after calls that include at least one
    [SetBody] or [SetBodyBytes] with non-empty input, serialization
    succeeds: [build] returns no error, leaves the buffer followed by the
    non-empty rendering of the message and marks it as built, [Bytes]
    returns that buffer (or the buffer of an earlier serialization), and
    [Send] goes on to the network with the built message. *)
Theorem empty_body_fails_nonempty_body_builds :
  (∀ (m : MailMessage) (hs ps : list (string * string)),
     body m = [] →
     build hs ps m = (m, Some (Errorf "Message body is empty"))
     ∧ (∀ p, Send p hs ps m
             = (m, (Some (Errorf "Message body is empty"), [])))
     ∧ (constructed m →
        Bytes hs ps m = (m, (buf m, Some (Errorf "Message body is empty")))))
  ∧ (∀ (m : MailMessage) (calls : list method)
       (hs ps : list (string * string)),
     existsb sets_body calls = true →
     (build hs ps (invoke_all m calls)).2 = None
     ∧ (Bytes hs ps (invoke_all m calls)).2.2 = None
     ∧ let m' := invoke_all m calls in
       let built :=
         with_buildCalled
           (with_buf m' (buf m' ++ rendering hs ps m')%list) true in
       rendering hs ps m' ≠ []
       ∧ build hs ps m' = (built, None)
       ∧ (buildCalled m' = false →
          Bytes hs ps m' = (built, ((buf m' ++ rendering hs ps m')%list, None)))
       ∧ (buildCalled m' = true → Bytes hs ps m' = (m', (buf m', None)))
       ∧ (∀ p, Send p hs ps m'
               = (built, transcript p built (dial_address built) []))).
Proof.
  split.
  - intros m hs ps Hb. pose proof (build_empty_body hs ps m Hb) as Hbuild.
    split; [exact Hbuild|]. split.
    + intros p. unfold Send. rewrite Hbuild. reflexivity.
    + intros Hc. unfold Bytes.
      destruct (buildCalled m) eqn:Hbc.
      * exfalso. exact (constructed_built m Hc Hbc Hb).
      * rewrite Hbuild. reflexivity.
  - intros m calls hs ps Hex.
    pose proof (body_after_sets_body calls m Hex) as Hb.
    destruct (build_renders hs ps _ Hb) as [Hout Hbuild].
    split; [now rewrite Hbuild|]. split.
    { unfold Bytes. destruct (buildCalled (invoke_all m calls)); [reflexivity|].
      rewrite Hbuild. reflexivity. }
    cbv zeta. split; [exact Hout|]. split; [exact Hbuild|]. split.
    { intros Hbc. unfold Bytes. rewrite Hbc, Hbuild. reflexivity. }
    split.
    { intros Hbc. unfold Bytes. rewrite Hbc. reflexivity. }
    intros p. unfold Send. rewrite Hbuild. reflexivity.
Qed.

Lemma empty_body_fails_nonempty_body_builds_witness :
  build [] [] scenario_message
  = (scenario_message, Some (Errorf "Message body is empty"))
  ∧ (let m' := invoke_all scenario_message
                 [CallSubject "greetings"; CallSetBody "hello"] in
     let out :=
       String.list_byte_of_string
         ("To: b@x.com" +:+ nl +:+ "Subject: greetings" +:+ nl
          +:+ "Content-Transfer-Encoding: base64" +:+ nl
          +:+ "MIME-Version: 1.0;" +:+ nl
          +:+ "Content-Type: text/plain; charset=" +:+ dq +:+ "utf-8" +:+ dq
          +:+ ";" +:+ nl +:+ nl +:+ "aGVsbG8=") in
     build [] [] m' = (with_buildCalled (with_buf m' out) true, None)
     ∧ Bytes [] [] m' = (with_buildCalled (with_buf m' out) true, (out, None))).
Proof.
  split.
  - apply (proj1 empty_body_fails_nonempty_body_builds scenario_message [] []).
    reflexivity.
  - destruct (proj2 empty_body_fails_nonempty_body_builds scenario_message
                [CallSubject "greetings"; CallSetBody "hello"] [] [] eq_refl)
      as (_ & _ & _ & Hbuild & Hbytes & _).
    split; [exact Hbuild | exact (Hbytes eq_refl)].
Defined.

(** ** Attachments *)

Lemma AddAttachment_success ReadFile (boundary path : string)
    (B : list byte) (m : MailMessage) :
  path ≠ EmptyString → ReadFile path = (B, None) →
  AddAttachment ReadFile boundary path m
  = (with_attachment m (filepath.Base path) (base64.Encode B)
       (base64.EncodedLen (Z.of_nat (length B))) boundary, None).
Proof.
  intros Hp Hread. unfold AddAttachment.
  destruct (String.eqb_spec path EmptyString) as [Heq | _]; [congruence|].
  cbn [negb]. rewrite Hread. reflexivity.
Qed.

(** When the second loop reaches the pair [(k, v)], the output holds the
    part of [k], with the recorded length and content. *)
Lemma build_writes_part (hs ps : list (string * string)) (m : MailMessage)
    (k v : string) :
  body m ≠ [] → (0 < size (attachments m))%nat → (k, v) ∈ ps →
  ∃ m' pre post,
    build hs ps m = (m', None)
    ∧ buf m' = (pre
                ++ attachment_part k v (default 0 (attachmentLengths m !! k))
                     (default [] (attachments m !! k))
                ++ post)%list.
Proof.
  intros Hb Hsize Hin. unfold build.
  destruct (Z.eqb_spec (Z.of_nat (length (body m))) 0) as [Hz | _].
  { destruct (body m); [congruence | discriminate]. }
  cbv zeta.
  destruct (Z.ltb_spec 0 (Z.of_nat (size (attachments m)))) as [_ | Hle];
    [|lia].
  apply list_elem_of_split in Hin as (l1 & l2 & ->).
  rewrite fold_write_attachment, map_app, concat_app.
  cbn [map concat]. rewrite write_attachment_part.
  eexists _, _, _. split; [reflexivity|].
  cbn [buf with_buildCalled with_buf].
  rewrite app_assoc. reflexivity.
Qed.

Lemma with_attachment_lookup (m : MailMessage) (name : string)
    (encoded : list byte) (encodedLen : Z) (boundary : string) :
  let m1 := with_attachment m name encoded encodedLen boundary in
  attachments m1 !! name = Some encoded
  ∧ attachmentLengths m1 !! name = Some encodedLen
  ∧ attachmentBoundaries m1 !! name = Some boundary
  ∧ (0 < size (attachments m1))%nat
  ∧ body m1 = body m.
Proof.
  cbn [with_attachment attachments attachmentLengths attachmentBoundaries body].
  rewrite !lookup_insert_eq. repeat split.
  destruct (decide (size (<[name:=encoded]> (attachments m)) = 0%nat))
    as [Hz | Hnz]; [|lia].
  apply map_size_empty_iff in Hz.
  exfalso. exact (insert_non_empty _ _ _ Hz).
Qed.

(** C4: when [AddAttachment] succeeds on a file whose bytes are [B] and the
    message is then serialized, the output holds the attachment's part, laid
    out as [attachment_part], and the payload of that part decodes from
    base64 to exactly [B]. *)
Theorem attachment_content_roundtrip
    (ReadFile : string → list byte * option error) (boundary path : string)
    (B : list byte) (m : MailMessage) :
  path ≠ EmptyString → ReadFile path = (B, None) → body m ≠ [] →
  ∃ m1,
    AddAttachment ReadFile boundary path m = (m1, None)
    ∧ ∀ hs ps, range_of (attachmentBoundaries m1) ps →
        ∃ m2 pre post payload size,
          build hs ps m1 = (m2, None)
          ∧ (buildCalled m1 = false →
             Bytes hs ps m1 = (m2, (buf m2, None)))
          ∧ buf m2 = (pre
                      ++ attachment_part (filepath.Base path) boundary size
                           payload
                      ++ post)%list
          ∧ base64.Decode payload = Some B.
Proof.
  intros Hp Hread Hb.
  eexists. split; [exact (AddAttachment_success _ _ _ _ _ Hp Hread)|].
  intros hs ps Hps.
  set (m1 := with_attachment m (filepath.Base path) (base64.Encode B)
               (base64.EncodedLen (Z.of_nat (length B))) boundary) in *.
  destruct (with_attachment_lookup m (filepath.Base path) (base64.Encode B)
              (base64.EncodedLen (Z.of_nat (length B))) boundary)
    as (Hatt & Hlen & Hbnd & Hsize & Hbody).
  fold m1 in Hatt, Hlen, Hbnd, Hsize, Hbody.
  assert (Hin : (filepath.Base path, boundary) ∈ ps).
  { unfold range_of in Hps. rewrite Hps. now apply elem_of_map_to_list. }
  assert (Hb1 : body m1 ≠ []) by now rewrite Hbody.
  destruct (build_writes_part hs ps m1 _ _ Hb1 Hsize Hin)
    as (m2 & pre & post & Hbuild & Hbuf).
  rewrite Hatt, Hlen in Hbuf. cbn [default] in Hbuf.
  exists m2, pre, post, (base64.Encode B),
    (base64.EncodedLen (Z.of_nat (length B))).
  split; [exact Hbuild|]. split.
  { intros Hbc. unfold Bytes. rewrite Hbc, Hbuild. reflexivity. }
  split; [exact Hbuf|]. apply Decode_Encode.
Qed.

Lemma attachment_content_roundtrip_witness :
  ∃ m1 m2 pre post payload size,
    AddAttachment one_file "k3x9" "/tmp/report.bin" hello_message = (m1, None)
    ∧ range_of (attachmentBoundaries m1) [("report.bin", "k3x9")]
    ∧ build [("report.bin", "k3x9")] [("report.bin", "k3x9")] m1 = (m2, None)
    ∧ buf m2 = (pre ++ attachment_part "report.bin" "k3x9" size payload
                ++ post)%list
    ∧ base64.Decode payload = Some (String.list_byte_of_string "0123456789").
Proof.
  destruct (attachment_content_roundtrip one_file "k3x9" "/tmp/report.bin"
              (String.list_byte_of_string "0123456789") hello_message)
    as (m1 & Hadd & Hall);
    [discriminate | reflexivity | discriminate |].
  assert (Hm1 : m1 = (AddAttachment one_file "k3x9" "/tmp/report.bin"
                        hello_message).1) by (rewrite Hadd; reflexivity).
  pose proof range_of_report as Hrange. rewrite <- Hm1 in Hrange.
  destruct (Hall [("report.bin", "k3x9")] [("report.bin", "k3x9")] Hrange)
    as (m2 & pre & post & payload & size & Hbuild & _ & Hbuf & Hdec).
  exists m1, m2, pre, post, payload, size. auto.
Defined.

(** C5: the [size] parameter written for an attachment is the encoded
    length [EncodedLen n] of its content, where [n] is the raw length; the
    encoded length is what [attachmentLengths] records, it is the length of
    the payload, and it exceeds [n] whenever the file is not empty. *)
Theorem attachment_size_is_encoded_length
    (ReadFile : string → list byte * option error) (boundary path : string)
    (B : list byte) (m : MailMessage) :
  path ≠ EmptyString → ReadFile path = (B, None) → body m ≠ [] →
  let n := Z.of_nat (length B) in
  ∃ m1,
    AddAttachment ReadFile boundary path m = (m1, None)
    ∧ attachmentLengths m1 !! filepath.Base path = Some (base64.EncodedLen n)
    ∧ (0 < n → n < base64.EncodedLen n)
    ∧ ∀ hs ps, range_of (attachmentBoundaries m1) ps →
        ∃ m2 pre post payload,
          build hs ps m1 = (m2, None)
          ∧ Z.of_nat (length payload) = base64.EncodedLen n
          ∧ buf m2 = (pre
                      ++ String.list_byte_of_string
                           ("Content-Disposition: attachment; filename="
                            +:+ dq +:+ filepath.Base path +:+ dq
                            +:+ "; size=" +:+ pretty (base64.EncodedLen n)
                            +:+ nl
                            +:+ "Content-Transfer-Encoding: base64"
                            +:+ nl +:+ nl)
                      ++ payload
                      ++ post)%list.
Proof.
  intros Hp Hread Hb n.
  eexists. split; [exact (AddAttachment_success _ _ _ _ _ Hp Hread)|].
  set (m1 := with_attachment m (filepath.Base path) (base64.Encode B)
               (base64.EncodedLen (Z.of_nat (length B))) boundary) in *.
  destruct (with_attachment_lookup m (filepath.Base path) (base64.Encode B)
              (base64.EncodedLen (Z.of_nat (length B))) boundary)
    as (Hatt & Hlen & Hbnd & Hsize & Hbody).
  fold m1 in Hatt, Hlen, Hbnd, Hsize, Hbody.
  split; [exact Hlen|]. split; [apply EncodedLen_grows|].
  intros hs ps Hps.
  assert (Hin : (filepath.Base path, boundary) ∈ ps).
  { unfold range_of in Hps. rewrite Hps. now apply elem_of_map_to_list. }
  assert (Hb1 : body m1 ≠ []) by now rewrite Hbody.
  destruct (build_writes_part hs ps m1 _ _ Hb1 Hsize Hin)
    as (m2 & pre & post & Hbuild & Hbuf).
  rewrite Hatt, Hlen in Hbuf. cbn [default] in Hbuf.
  exists m2,
    (pre ++ String.list_byte_of_string
              (nl +:+ nl +:+ "--" +:+ boundary +:+ nl
               +:+ "Content-Type: application/octet-stream; name=" +:+ dq
               +:+ filepath.Base path +:+ dq +:+ nl
               +:+ "Content-Description: " +:+ filepath.Base path +:+ nl))%list,
    (String.list_byte_of_string (nl +:+ "--" +:+ boundary +:+ "--")
     ++ post)%list,
    (base64.Encode B).
  split; [exact Hbuild|]. split; [apply Encode_length|].
  rewrite Hbuf. unfold attachment_part.
  split_bytes. rewrite <- !app_assoc. reflexivity.
Qed.

Lemma attachment_size_is_encoded_length_witness :
  ∃ m1 m2 pre post payload,
    AddAttachment one_file "k3x9" "/tmp/report.bin" hello_message = (m1, None)
    ∧ attachmentLengths m1 !! "report.bin" = Some 16
    ∧ range_of (attachmentBoundaries m1) [("report.bin", "k3x9")]
    ∧ build [("report.bin", "k3x9")] [("report.bin", "k3x9")] m1 = (m2, None)
    ∧ Z.of_nat (length payload) = 16
    ∧ buf m2 = (pre
                ++ String.list_byte_of_string
                     ("Content-Disposition: attachment; filename="
                      +:+ dq +:+ "report.bin" +:+ dq +:+ "; size=" +:+ "16"
                      +:+ nl +:+ "Content-Transfer-Encoding: base64"
                      +:+ nl +:+ nl)
                ++ payload ++ post)%list.
Proof.
  destruct (attachment_size_is_encoded_length one_file "k3x9"
              "/tmp/report.bin" (String.list_byte_of_string "0123456789")
              hello_message)
    as (m1 & Hadd & Hlen & _ & Hall);
    [discriminate | reflexivity | discriminate |].
  assert (Hm1 : m1 = (AddAttachment one_file "k3x9" "/tmp/report.bin"
                        hello_message).1) by (rewrite Hadd; reflexivity).
  pose proof range_of_report as Hrange. rewrite <- Hm1 in Hrange.
  destruct (Hall [("report.bin", "k3x9")] [("report.bin", "k3x9")] Hrange)
    as (m2 & pre & post & payload & Hbuild & Hsize & Hbuf).
  exists m1, m2, pre, post, payload. auto 10.
Defined.

(** C6: when [AddAttachment] fails, on an empty path or on a failed read,
    it returns the error (the read error as it came) and leaves the message
    as it was: nothing is added and the three attachment maps keep every
    entry they had. *)
Theorem AddAttachment_failure_changes_nothing
    (ReadFile : string → list byte * option error) (boundary path : string)
    (m : MailMessage) :
  (path = EmptyString →
     AddAttachment ReadFile boundary path m
     = (m, Some (Errorf "No attachment specified")))
  ∧ (∀ b e, path ≠ EmptyString → ReadFile path = (b, Some e) →
     AddAttachment ReadFile boundary path m = (m, Some e))
  ∧ (∀ m' e, AddAttachment ReadFile boundary path m = (m', Some e) →
     m' = m
     ∧ attachments m' = attachments m
     ∧ attachmentLengths m' = attachmentLengths m
     ∧ attachmentBoundaries m' = attachmentBoundaries m
     ∧ (path = EmptyString ∨ (ReadFile path).2 = Some e)).
Proof.
  unfold AddAttachment.
  destruct (String.eqb_spec path EmptyString) as [Heq | Hne]; cbn [negb].
  - split; [reflexivity|]. split; [congruence|].
    intros m' e [= <- <-]. auto 10.
  - split; [congruence|]. split.
    + intros b e _ ->. reflexivity.
    + intros m' e. destruct (ReadFile path) as [b [e'|]]; [|discriminate].
      intros [= <- <-]. auto 10.
Qed.

Lemma AddAttachment_failure_changes_nothing_witness :
  AddAttachment one_file "k3x9" EmptyString hello_message
  = (hello_message, Some (Errorf "No attachment specified"))
  ∧ AddAttachment one_file "k3x9" "/tmp/missing.bin" hello_message
    = (hello_message, Some (PathError "open: no such file or directory")).
Proof.
  split.
  - apply (AddAttachment_failure_changes_nothing one_file "k3x9" EmptyString
             hello_message). reflexivity.
  - apply (proj1 (proj2 (AddAttachment_failure_changes_nothing one_file "k3x9"
             "/tmp/missing.bin" hello_message)) []);
      [discriminate | reflexivity].
Defined.

(** ** Subject and content type *)

(** C8, as stated, fails: [Subject] with an empty value does not keep the
    subject, it clears it. *)
Lemma Subject_empty_value_clears :
  ¬ (∀ (m : MailMessage) (value : string),
       (value ≠ EmptyString → subject (Subject value m) = value)
       ∧ (value = EmptyString → subject (Subject value m) = subject m)).
Proof.
  intros H.
  destruct (H scenario_message EmptyString) as [_ Hkeep].
  specialize (Hkeep eq_refl). discriminate Hkeep.
Qed.

(** C8, amended: [Subject] replaces the subject with the given value
    whatever the value is, the empty string included, and touches no other
    field. *)
Theorem Subject_replaces_unconditionally (m : MailMessage) (value : string) :
  subject (Subject value m) = value
  ∧ Subject value m = with_subject m value
  ∧ subject (Subject EmptyString m) = EmptyString
  ∧ body (Subject value m) = body m
  ∧ contentType (Subject value m) = contentType m
  ∧ buf (Subject value m) = buf m.
Proof. repeat split. Qed.

(** C9: [SetContentType] with the empty string sets the content type to
    "text/plain", also after an earlier call set another value; with a
    non-empty string it sets the content type to that string. *)
Theorem SetContentType_resets_or_replaces (m : MailMessage) :
  contentType (SetContentType EmptyString m) = "text/plain"
  ∧ (∀ ct, contentType (SetContentType EmptyString (SetContentType ct m))
           = "text/plain")
  ∧ (∀ c ct, contentType (SetContentType (String c ct) m) = String c ct)
  ∧ (∀ ct, ct ≠ EmptyString → contentType (SetContentType ct m) = ct).
Proof.
  split; [reflexivity|]. split; [reflexivity|].
  assert (Hne : ∀ c ct, contentType (SetContentType (String c ct) m)
                        = String c ct).
  { intros c ct. unfold SetContentType.
    destruct (Z.ltb_spec 0 (Z.of_nat (String.length (String c ct))))
      as [_ | Hle]; [reflexivity|].
    cbn [String.length] in Hle. lia. }
  split; [exact Hne|].
  intros [|c ct] Hct; [congruence | apply Hne].
Qed.

Lemma SetContentType_resets_or_replaces_witness :
  contentType (SetContentType EmptyString
                 (SetContentType "text/html" scenario_message))
  = "text/plain"
  ∧ contentType (SetContentType "text/html" scenario_message) = "text/html".
Proof.
  split.
  - apply (SetContentType_resets_or_replaces scenario_message).
  - apply (SetContentType_resets_or_replaces scenario_message). discriminate.
Defined.

(** ** Delivery *)

Lemma build_keeps_envelope (hs ps : list (string * string))
    (m m' : MailMessage) (err : option error) :
  build hs ps m = (m', err) →
  tls m' = tls m ∧ server m' = server m ∧ port m' = port m
  ∧ from m' = from m ∧ to m' = to m.
Proof.
  intros Hbuild. pose proof (build_state hs ps m) as Hst.
  rewrite Hbuild in Hst. cbn [fst] in Hst. tauto.
Qed.

Lemma Send_success_path (p : Peer) (hs ps : list (string * string))
    (m m' : MailMessage) :
  build hs ps m = (m', None) →
  Send p hs ps m = (m', transcript p m' (dial_address m') []).
Proof. intros Hbuild. unfold Send. rewrite Hbuild. reflexivity. Qed.

Lemma abort_log (p : Peer) (e : error) (log : list smtp_call) :
  abort p e log = (Some e, (log ++ [Reset; Quit])%list).
Proof.
  unfold abort, bind, call, ret. now rewrite <- app_assoc.
Qed.


Lemma add_recipients_accepted (p : Peer) (rcpts : list string)
    (log : list smtp_call) :
  (∀ l c, answer p l c = None) →
  add_recipients p rcpts log = (None, (log ++ map Rcpt rcpts)%list).
Proof.
  intros Hok. revert log. induction rcpts as [|v rcpts IH]; intros log.
  - cbn. now rewrite app_nil_r.
  - cbn [add_recipients]. unfold bind, call. rewrite Hok, IH.
    now rewrite <- app_assoc.
Qed.


Lemma deliver_accepted (p : Peer) (m : MailMessage) (log : list smtp_call) :
  (∀ l c, answer p l c = None) →
  deliver p m log
  = (None, (log ++ Mail (from m) :: map Rcpt (to m)
            ++ [Data; WriterWrite (buf m); WriterClose; Quit])%list).
Proof.
  intros Hok. unfold deliver, bind, call, ret.
  rewrite Hok, add_recipients_accepted by exact Hok.
  rewrite !Hok, <- !app_assoc. reflexivity.
Qed.

(** C7: with TLS asked for, when the server advertises STARTTLS and the
    handshake fails, [Send] calls [Reset] and [Quit] and returns the
    handshake error; the calls it makes end there, so nothing of the
    message is sent over the unencrypted connection. *)
Theorem Send_aborts_on_StartTLS_failure (p : Peer)
    (hs ps : list (string * string)) (m m' : MailMessage) (e : error) :
  tls m = true →
  build hs ps m = (m', None) →
  answer p [] (Dial (dial_address m')) = None →
  advertises p [Dial (dial_address m')] "STARTTLS" = true →
  answer p [Dial (dial_address m'); Extension "STARTTLS"]
    (StartTLS true (server m')) = Some e →
  Send p hs ps m
  = (m', (Some e, [Dial (dial_address m'); Extension "STARTTLS";
                   StartTLS true (server m'); Reset; Quit])).
Proof.
  intros Htls Hbuild Hdial Hext Hstart.
  destruct (build_keeps_envelope hs ps m m' None Hbuild) as (Htls' & _).
  rewrite (Send_success_path p hs ps m m' Hbuild).
  unfold transcript, bind, call, ask_extension. cbn [app].
  rewrite Hdial, Htls', Htls. cbn [app].
  rewrite Hext. cbn [app].
  rewrite Hstart, abort_log. reflexivity.
Qed.

Lemma Send_aborts_on_StartTLS_failure_witness :
  Send broken_tls_peer [] [] tls_hello_message
  = ((build [] [] tls_hello_message).1,
     (Some (ProtocolError "tls: handshake failure"),
      [Dial "localhost:25"; Extension "STARTTLS";
       StartTLS true "localhost"; Reset; Quit])).
Proof.
  apply (Send_aborts_on_StartTLS_failure broken_tls_peer [] []
           tls_hello_message (build [] [] tls_hello_message).1
           (ProtocolError "tls: handshake failure"));
    reflexivity.
Defined.



(** * Further properties of the code *)

(** ** Serialization on demand *)

Lemma build_success_marks (hs ps : list (string * string))
    (m m' : MailMessage) :
  build hs ps m = (m', None) → buildCalled m' = true ∧ body m ≠ [].
Proof.
  unfold build.
  destruct (Z.eqb_spec (Z.of_nat (length (body m))) 0) as [Hz | Hnz];
    [discriminate|].
  intros [= <-]. split; [reflexivity|].
  intros Hb. rewrite Hb in Hnz. now apply Hnz.
Qed.

Lemma build_failure (hs ps : list (string * string)) (m m' : MailMessage)
    (e : error) :
  build hs ps m = (m', Some e) →
  body m = [] ∧ m' = m ∧ e = Errorf "Message body is empty".
Proof.
  unfold build.
  destruct (Z.eqb_spec (Z.of_nat (length (body m))) 0) as [Hz | Hnz];
    [|discriminate].
  intros [= <- <-]. repeat split.
  destruct (body m); [reflexivity | discriminate].
Qed.

(** X1: once [Bytes] has succeeded, every later [Bytes], whatever the
    enumerations it is given, returns the same bytes with no error and
    leaves the message as it is. *)
Theorem Bytes_is_idempotent (hs ps : list (string * string))
    (m m1 : MailMessage) (out : list byte) :
  Bytes hs ps m = (m1, (out, None)) →
  ∀ hs' ps', Bytes hs' ps' m1 = (m1, (out, None)).
Proof.
  intros HB hs' ps'. unfold Bytes in HB.
  destruct (buildCalled m) eqn:Hbc.
  - injection HB as <- <-. now apply Bytes_cached.
  - destruct (build hs ps m) as [m' err] eqn:Hbuild.
    injection HB as <- <- ->.
    destruct (build_success_marks hs ps m m' Hbuild) as [Hbuilt _].
    now apply Bytes_cached.
Qed.

Lemma Bytes_is_idempotent_witness :
  ∃ m1 out,
    Bytes [] [] hello_message = (m1, (out, None))
    ∧ Bytes [("x", "y")] [] m1 = (m1, (out, None)).
Proof.
  exists (Bytes [] [] hello_message).1, (Bytes [] [] hello_message).2.1.
  split; [reflexivity|].
  apply (Bytes_is_idempotent [] [] hello_message). reflexivity.
Defined.

Lemma setter_keeps_buffer (m : MailMessage) (c : method) :
  is_setter c = true →
  buf (invoke m c) = buf m ∧ buildCalled (invoke m c) = buildCalled m.
Proof.
  destruct c; cbn [is_setter invoke]; try discriminate; intros _.
  - unfold AddAttachment.
    destruct (negb (String.eqb pathToFile EmptyString)); [|auto].
    destruct (ReadFile pathToFile) as [b [e|]]; auto.
  - auto.
  - auto.
  - unfold SetContentType.
    destruct (0 <? Z.of_nat (String.length ct)); auto.
  - auto.
Qed.

(** X2: after the message has been serialized, calls that add
    attachments or set the body, the subject or the content type do not
    reach the output any more: [Bytes] keeps returning the buffer of the
    first serialization. *)
Theorem Bytes_ignores_later_changes (hs ps : list (string * string))
    (m : MailMessage) (calls : list method) :
  buildCalled m = true →
  forallb is_setter calls = true →
  Bytes hs ps (invoke_all m calls) = (invoke_all m calls, (buf m, None)).
Proof.
  intros Hbc Hset.
  assert (Hkeep : buf (invoke_all m calls) = buf m
                  ∧ buildCalled (invoke_all m calls) = true).
  { unfold invoke_all. revert m Hbc.
    induction calls as [|c calls IH]; intros m Hbc; cbn [fold_left]; [auto|].
    cbn [forallb] in Hset. apply andb_true_iff in Hset as [Hc Hrest].
    destruct (setter_keeps_buffer m c Hc) as [Hbuf Hb].
    destruct (IH Hrest (invoke m c)) as [IHbuf IHb]; [congruence|].
    split; congruence. }
  destruct Hkeep as [Hbuf Hb].
  rewrite (Bytes_cached hs ps _ Hb), Hbuf. reflexivity.
Qed.

Lemma Bytes_ignores_later_changes_witness :
  let m1 := (Bytes [] [] hello_message).1 in
  let later := invoke_all m1
                 [CallSubject "changed"; CallSetBody " world";
                  CallAddAttachment one_file "k3x9" "/tmp/report.bin"] in
  Bytes [] [("report.bin", "k3x9")] later = (later, (buf m1, None)).
Proof.
  apply (Bytes_ignores_later_changes [] [("report.bin", "k3x9")]
           (Bytes [] [] hello_message).1
           [CallSubject "changed"; CallSetBody " world";
            CallAddAttachment one_file "k3x9" "/tmp/report.bin"]);
    reflexivity.
Defined.

(** ** The body *)

(** X3: the body-setting calls append.  Two calls leave the bytes of both
    inputs, in call order, after what the body held; [SetBody] is
    [SetBodyBytes] on the bytes of the string; an empty input changes
    nothing. *)
Theorem SetBody_accumulates (m : MailMessage) (s t : string)
    (d : list byte) :
  body (SetBody t (SetBody s m))
  = (body m ++ String.list_byte_of_string (s +:+ t))%list
  ∧ SetBody t (SetBody s m) = SetBody (s +:+ t) m
  ∧ body (SetBodyBytes d (SetBody s m))
    = (body m ++ String.list_byte_of_string s ++ d)%list
  ∧ SetBody s m = SetBodyBytes (String.list_byte_of_string s) m
  ∧ SetBody EmptyString m = m
  ∧ SetBodyBytes [] m = m.
Proof.
  assert (Hcat : SetBody t (SetBody s m) = SetBody (s +:+ t) m).
  { unfold SetBody, WriteString. cbn [body with_body].
    rewrite bytes_of_string_app, <- app_assoc. reflexivity. }
  split; [rewrite Hcat; reflexivity|]. split; [exact Hcat|].
  split.
  { unfold SetBodyBytes, SetBody, WriteString, Write. cbn [body with_body].
    now rewrite <- app_assoc. }
  split; [reflexivity|].
  unfold SetBody, SetBodyBytes, WriteString, Write. cbn [app].
  destruct m; cbn. rewrite app_nil_r. split; reflexivity.
Qed.

(** ** The attachment maps *)

(** X4: attachments are keyed by the base name of their path.  A second
    [AddAttachment] whose path has the same base name replaces the first in
    all three maps: the message is the one the second call alone would have
    left, and the stored bytes and boundary are those of the second file. *)
Theorem AddAttachment_same_name_overwrites
    (ReadFile1 ReadFile2 : string → list byte * option error)
    (boundary1 boundary2 path1 path2 : string) (B1 B2 : list byte)
    (m : MailMessage) :
  path1 ≠ EmptyString → path2 ≠ EmptyString →
  filepath.Base path1 = filepath.Base path2 →
  ReadFile1 path1 = (B1, None) → ReadFile2 path2 = (B2, None) →
  let m1 := (AddAttachment ReadFile1 boundary1 path1 m).1 in
  let m2 := (AddAttachment ReadFile2 boundary2 path2 m1).1 in
  m2 = (AddAttachment ReadFile2 boundary2 path2 m).1
  ∧ attachments m2 !! filepath.Base path1 = Some (base64.Encode B2)
  ∧ attachmentBoundaries m2 !! filepath.Base path1 = Some boundary2
  ∧ size (attachments m2) = size (attachments m1).
Proof.
  intros Hp1 Hp2 Hbase Hr1 Hr2 m1 m2. subst m1 m2.
  rewrite (AddAttachment_success _ boundary1 _ _ m Hp1 Hr1). cbn [fst].
  rewrite !(AddAttachment_success _ boundary2 _ _ _ Hp2 Hr2). cbn [fst].
  rewrite <- Hbase.
  unfold with_attachment.
  cbn [attachments attachmentLengths attachmentBoundaries body buf from port
       server subject tls to contentType buildCalled].
  rewrite !insert_insert_eq, !lookup_insert_eq. repeat split.
  rewrite <- (insert_insert_eq (attachments m) (filepath.Base path1)
                (base64.Encode B2) (base64.Encode B1)) at 1.
  apply map_size_insert_Some. rewrite lookup_insert_eq. eauto.
Qed.

Lemma AddAttachment_same_name_overwrites_witness :
  let m1 := (AddAttachment two_notes "t1" "/a/note.txt" hello_message).1 in
  let m2 := (AddAttachment two_notes "t2" "/b/note.txt" m1).1 in
  m2 = (AddAttachment two_notes "t2" "/b/note.txt" hello_message).1
  ∧ attachments m2 !! "note.txt"
    = Some (base64.Encode (String.list_byte_of_string "second"))
  ∧ attachmentBoundaries m2 !! "note.txt" = Some "t2"
  ∧ size (attachments m2) = size (attachments m1).
Proof.
  apply (AddAttachment_same_name_overwrites two_notes two_notes "t1" "t2"
           "/a/note.txt" "/b/note.txt" (String.list_byte_of_string "one")
           (String.list_byte_of_string "second") hello_message);
    first [discriminate | reflexivity].
Defined.

(** X5: a successful [AddAttachment] touches only the entries of its own
    name: every other name keeps its bytes, length and boundary, and the
    body, the output buffer, the built flag and the envelope fields stay as
    they were. *)
Theorem AddAttachment_leaves_other_names
    (ReadFile : string → list byte * option error) (boundary path : string)
    (m m1 : MailMessage) :
  AddAttachment ReadFile boundary path m = (m1, None) →
  (∀ k, k ≠ filepath.Base path →
        attachments m1 !! k = attachments m !! k
        ∧ attachmentLengths m1 !! k = attachmentLengths m !! k
        ∧ attachmentBoundaries m1 !! k = attachmentBoundaries m !! k)
  ∧ attachmentBoundaries m1 !! filepath.Base path = Some boundary
  ∧ body m1 = body m ∧ buf m1 = buf m ∧ buildCalled m1 = buildCalled m
  ∧ subject m1 = subject m ∧ contentType m1 = contentType m
  ∧ from m1 = from m ∧ to m1 = to m
  ∧ server m1 = server m ∧ port m1 = port m ∧ tls m1 = tls m.
Proof.
  unfold AddAttachment.
  destruct (negb (String.eqb path EmptyString)); [|discriminate].
  destruct (ReadFile path) as [b [e|]]; [discriminate|].
  intros [= <-]. unfold with_attachment.
  cbn [attachments attachmentLengths attachmentBoundaries body buf from port
       server subject tls to contentType buildCalled].
  split.
  - intros k Hk. rewrite !lookup_insert_ne by congruence. auto.
  - rewrite lookup_insert_eq. auto 15.
Qed.

Lemma AddAttachment_leaves_other_names_witness :
  let m1 := (AddAttachment two_notes "t1" "/a/note.txt" hello_message).1 in
  let m2 := (AddAttachment one_file "t2" "/tmp/report.bin" m1).1 in
  attachments m2 !! "note.txt" = attachments m1 !! "note.txt"
  ∧ attachmentBoundaries m2 !! "note.txt" = Some "t1"
  ∧ attachmentBoundaries m2 !! "report.bin" = Some "t2"
  ∧ body m2 = body hello_message.
Proof.
  intros m1 m2.
  destruct (AddAttachment_leaves_other_names one_file "t2" "/tmp/report.bin"
              m1 m2 eq_refl) as (Hother & Hown & Hbody & _).
  destruct (Hother "note.txt") as (Ha & _ & Hb); [discriminate|].
  split; [exact Ha|]. split; [rewrite Hb; reflexivity|].
  split; [exact Hown|]. rewrite Hbody. reflexivity.
Defined.

Lemma build_keeps_maps (hs ps : list (string * string)) (m : MailMessage) :
  attachments (build hs ps m).1 = attachments m
  ∧ attachmentLengths (build hs ps m).1 = attachmentLengths m
  ∧ attachmentBoundaries (build hs ps m).1 = attachmentBoundaries m.
Proof.
  unfold build. destruct (Z.of_nat (length (body m)) =? 0); auto.
Qed.

Lemma maps_agree_invoke (m : MailMessage) (c : method) :
  maps_agree m → maps_agree (invoke m c).
Proof.
  intros Hm.
  assert (Hsame : ∀ m', attachments m' = attachments m →
            attachmentLengths m' = attachmentLengths m →
            attachmentBoundaries m' = attachmentBoundaries m →
            maps_agree m').
  { intros m' Ha Hl Hb. unfold maps_agree. rewrite Ha, Hl, Hb. exact Hm. }
  destruct c; cbn [invoke].
  - unfold AddAttachment.
    destruct (negb (String.eqb pathToFile EmptyString)); [|exact Hm].
    destruct (ReadFile pathToFile) as [b [e|]]; [exact Hm|].
    cbn [fst]. destruct Hm as (Hl & Hb & Hen).
    unfold maps_agree, with_attachment.
    cbn [attachments attachmentLengths attachmentBoundaries].
    rewrite !dom_insert_L, Hl, Hb. split; [reflexivity|].
    split; [reflexivity|].
    intros k enc.
    destruct (decide (filepath.Base pathToFile = k)) as [-> | Hne].
    + rewrite !lookup_insert_eq. intros [= <-]. split.
      * now rewrite Encode_length.
      * eauto.
    + rewrite !lookup_insert_ne by exact Hne. apply Hen.
  - now apply Hsame.
  - now apply Hsame.
  - unfold SetContentType.
    destruct (0 <? Z.of_nat (String.length ct)); now apply Hsame.
  - now apply Hsame.
  - rewrite Bytes_state. destruct (buildCalled m); [exact Hm|].
    destruct (build_keeps_maps hs ps m) as (Ha & Hl & Hb).
    now apply Hsame.
  - rewrite Send_state.
    destruct (build_keeps_maps hs ps m) as (Ha & Hl & Hb).
    now apply Hsame.
Qed.

(** X6: on every message a caller can hold, the three attachment maps
    describe the same attachments: they have the same names, the recorded
    length of a name is the length of its stored bytes, and the stored bytes
    decode from base64. *)
Theorem attachment_maps_stay_aligned (m : MailMessage) :
  constructed m →
  maps_agree m
  ∧ ∀ k, is_Some (attachments m !! k) →
      ∃ enc n v B,
        attachments m !! k = Some enc
        ∧ attachmentLengths m !! k = Some n
        ∧ attachmentBoundaries m !! k = Some v
        ∧ n = Z.of_nat (length enc)
        ∧ base64.Decode enc = Some B.
Proof.
  intros (now & srv & prt & frm & rcpts & usetls & m0 & calls & Hnew & ->).
  assert (H0 : maps_agree m0).
  { unfold New in Hnew.
    destruct (String.eqb srv EmptyString); [discriminate|].
    destruct (String.eqb frm EmptyString); [discriminate|].
    destruct (Z.of_nat (length rcpts) =? 0); [discriminate|].
    injection Hnew as <-. unfold maps_agree.
    cbn [attachments attachmentLengths attachmentBoundaries].
    rewrite !dom_empty_L. repeat split; rewrite lookup_empty in *; discriminate. }
  clear Hnew.
  assert (Hall : maps_agree (invoke_all m0 calls)).
  { unfold invoke_all. revert m0 H0.
    induction calls as [|c calls IH]; intros m0 H0; cbn [fold_left];
      [exact H0|].
    apply IH. now apply maps_agree_invoke. }
  split; [exact Hall|].
  intros k [enc Henc]. destruct Hall as (Hl & Hb & Hen).
  destruct (Hen k enc Henc) as (Hlen & B & ->).
  assert (Hk : is_Some (attachmentBoundaries (invoke_all m0 calls) !! k)).
  { apply elem_of_dom. rewrite Hb. apply elem_of_dom. eauto. }
  destruct Hk as [v Hv].
  exists (base64.Encode B), (Z.of_nat (length (base64.Encode B))), v, B.
  repeat split; auto. apply Decode_Encode.
Qed.

Lemma attachment_maps_stay_aligned_witness :
  maps_agree
    (invoke_all scenario_message
       [CallSetBody "hello";
        CallAddAttachment two_notes "t1" "/a/note.txt";
        CallBytes [] [];
        CallAddAttachment one_file "t2" "/tmp/report.bin";
        CallAddAttachment two_notes "t3" "/b/note.txt"]).
Proof.
  apply attachment_maps_stay_aligned.
  exists "2014-01-01 00:00:00 +0000 UTC", "localhost", 0, "a@x.com",
    ["b@x.com"], false, scenario_message.
  eexists. split; reflexivity.
Defined.

(** ** The rendering *)

(** X7: a message without attachments is rendered as the five header lines
    and a blank line followed by the base64 encoding of the body, appended
    to what the buffer held, whatever enumerations the loops are given; the
    payload decodes to the accumulated body. *)
Theorem plain_message_layout (hs ps : list (string * string))
    (m : MailMessage) :
  body m ≠ [] → attachments m = ∅ →
  ∃ m' payload,
    build hs ps m = (m', None)
    ∧ buf m' = (buf m ++ String.list_byte_of_string (plain_headers m)
                ++ payload)%list
    ∧ base64.Decode payload = Some (body m)
    ∧ Z.of_nat (length payload)
      = base64.EncodedLen (Z.of_nat (length (body m))).
Proof.
  intros Hb Hatt. unfold build.
  destruct (Z.eqb_spec (Z.of_nat (length (body m))) 0) as [Hz | _].
  { destruct (body m); [congruence | discriminate]. }
  cbv zeta. rewrite Hatt, map_size_empty. cbn [Z.of_nat Z.ltb Z.compare].
  exists (with_buildCalled
            (with_buf m
               (Write
                  (WriteString
                     (WriteString
                        (WriteString
                           (WriteString
                              (WriteString (buf m)
                                 ("To: " +:+ strings.Join (to m) "," +:+ nl))
                              ("Subject: " +:+ subject m +:+ nl))
                           ("Content-Transfer-Encoding: base64" +:+ nl))
                        ("MIME-Version: 1.0;" +:+ nl))
                     ("Content-Type: " +:+ contentType m +:+ "; charset="
                      +:+ dq +:+ "utf-8" +:+ dq +:+ ";" +:+ nl +:+ nl))
                  (base64.Encode (body m)))) true),
    (base64.Encode (body m)).
  split; [reflexivity|]. split.
  - cbn [buf with_buildCalled with_buf].
    unfold WriteString, Write, plain_headers.
    split_bytes. rewrite <- !app_assoc. reflexivity.
  - split; [apply Decode_Encode | apply Encode_length].
Qed.

Lemma plain_message_layout_witness :
  ∃ m' payload,
    build [("ghost", "zz")] [] hello_message = (m', None)
    ∧ buf m' = (buf hello_message
                ++ String.list_byte_of_string (plain_headers hello_message)
                ++ payload)%list
    ∧ base64.Decode payload = Some (String.list_byte_of_string "hello")
    ∧ Z.of_nat (length payload) = 8.
Proof.
  apply (plain_message_layout [("ghost", "zz")] [] hello_message).
  - discriminate.
  - reflexivity.
Defined.

(** The rendering [build] appends depends on neither the buffer nor the
    built flag. *)
Lemma build_rendering (hs ps : list (string * string)) (m : MailMessage) :
  body m ≠ [] →
  ∃ out, out ≠ []
    ∧ ∀ b c, build hs ps (with_buildCalled (with_buf m b) c)
             = (with_buildCalled (with_buf m (b ++ out)%list) true, None).
Proof.
  intros Hb.
  assert (Hnz : (Z.of_nat (length (body m)) =? 0) = false).
  { apply Z.eqb_neq. destruct (body m); [congruence | cbn; lia]. }
  destruct (0 <? Z.of_nat (size (attachments m))) eqn:Hsz.
  - eexists. split; cycle 1.
    + intros b c. unfold build.
      cbn [body buf to subject attachments contentType with_buildCalled
           with_buf].
      rewrite Hnz, Hsz. cbv zeta.
      change (write_attachment (with_buildCalled (with_buf m b) c))
        with (write_attachment m).
      rewrite fold_write_attachment, fold_write_multipart_header.
      unfold WriteString, Write. rewrite <- !app_assoc.
      reflexivity.
    + cbn. discriminate.
  - eexists. split; cycle 1.
    + intros b c. unfold build.
      cbn [body buf to subject attachments contentType with_buildCalled
           with_buf].
      rewrite Hnz, Hsz. cbv zeta.
      unfold WriteString, Write. rewrite <- !app_assoc.
      reflexivity.
    + cbn. discriminate.
Qed.

(** ** The SMTP conversation *)

(** The recipient loop either gets through all recipients or stops right
    after the first one the server refuses. *)
Lemma add_recipients_outcome (p : Peer) (rcpts : list string)
    (log : list smtp_call) :
  match add_recipients p rcpts log with
  | (None, log') => log' = (log ++ map Rcpt rcpts)%list
  | (Some e, log') =>
      ∃ l1 v l2, rcpts = (l1 ++ v :: l2)%list
        ∧ log' = (log ++ map Rcpt l1 ++ [Rcpt v])%list
        ∧ answer p (log ++ map Rcpt l1)%list (Rcpt v) = Some e
  end.
Proof.
  revert log. induction rcpts as [|v rcpts IH]; intros log.
  - cbn. now rewrite app_nil_r.
  - cbn [add_recipients]. unfold bind, call.
    destruct (answer p log (Rcpt v)) as [e|] eqn:Hv.
    + exists [], v, rcpts. cbn [map app]. rewrite app_nil_r. auto.
    + specialize (IH (log ++ [Rcpt v])%list).
      destruct (add_recipients p rcpts (log ++ [Rcpt v])%list)
        as [[e|] log'].
      * destruct IH as (l1 & w & l2 & -> & -> & Hw).
        exists (v :: l1), w, l2. cbn [map app].
        rewrite <- !app_assoc in *. cbn [app] in *. auto.
      * rewrite IH, <- app_assoc. reflexivity.
Qed.

(** Two logs that differ only in how their pieces are grouped. *)
Ltac same_log :=
  cbn [app]; rewrite <- ?app_assoc, ?app_nil_r; cbn [app]; reflexivity.

(** What [deliver] leaves in the log: the whole envelope and [Quit], or a
    prefix of the envelope up to the command that failed, then [Reset] and
    [Quit]; the error it returns is the answer to that command. *)
Lemma deliver_outcome (p : Peer) (m : MailMessage) (log : list smtp_call) :
  match deliver p m log with
  | (None, log') => log' = (log ++ envelope_commands m ++ [Quit])%list
  | (Some e, log') =>
      ∃ done c, log' = (log ++ done ++ [c; Reset; Quit])%list
        ∧ answer p (log ++ done)%list c = Some e
        ∧ (done ++ [c])%list `prefix_of` envelope_commands m
  end.
Proof.
  unfold deliver, bind, call, ret, envelope_commands.
  destruct (answer p log (Mail (from m))) as [e|] eqn:HM.
  { rewrite abort_log. exists [], (Mail (from m)).
    split; [same_log|]. split; [rewrite <- HM; f_equal; same_log|].
    eexists. same_log. }
  pose proof (add_recipients_outcome p (to m) (log ++ [Mail (from m)])%list)
    as HR.
  destruct (add_recipients p (to m) (log ++ [Mail (from m)])%list)
    as [[e|] l2].
  { destruct HR as (l1 & v & l3 & Hto & -> & Hv). rewrite abort_log.
    exists (Mail (from m) :: map Rcpt l1), (Rcpt v).
    split; [same_log|]. split; [rewrite <- Hv; f_equal; same_log|].
    rewrite Hto, map_app. cbn [map].
    exists (map Rcpt l3 ++ [Data; WriterWrite (buf m); WriterClose])%list.
    same_log. }
  subst l2.
  destruct (answer p _ Data) as [e|] eqn:HD.
  { rewrite abort_log. exists (Mail (from m) :: map Rcpt (to m)), Data.
    split; [same_log|]. split; [rewrite <- HD; f_equal; same_log|].
    exists [WriterWrite (buf m); WriterClose]. same_log. }
  destruct (answer p _ (WriterWrite (buf m))) as [e|] eqn:HW.
  { rewrite abort_log.
    exists (Mail (from m) :: map Rcpt (to m) ++ [Data])%list,
      (WriterWrite (buf m)).
    split; [same_log|]. split; [rewrite <- HW; f_equal; same_log|].
    exists [WriterClose]. same_log. }
  destruct (answer p _ WriterClose) as [e|] eqn:HC.
  { rewrite abort_log.
    exists (Mail (from m) :: map Rcpt (to m)
            ++ [Data; WriterWrite (buf m)])%list, WriterClose.
    split; [same_log|]. split; [rewrite <- HC; f_equal; same_log|].
    exists []. rewrite app_nil_r. same_log. }
  same_log.
Qed.

Lemma envelope_no_negotiation (m : MailMessage) :
  Forall (λ c, is_negotiation c = false) (envelope_commands m).
Proof.
  unfold envelope_commands. constructor; [reflexivity|].
  apply Forall_app. split; [|repeat constructor].
  apply Forall_forall. intros c Hc.
  apply list_elem_of_In, in_map_iff in Hc as (v & <- & _). reflexivity.
Qed.

(** From the sender on, no call belongs to the TLS negotiation. *)
Lemma deliver_no_negotiation (p : Peer) (m : MailMessage)
    (log : list smtp_call) :
  ∃ rest, (deliver p m log).2 = (log ++ rest)%list
          ∧ Forall (λ c, is_negotiation c = false) rest.
Proof.
  pose proof (deliver_outcome p m log) as Hout.
  pose proof (envelope_no_negotiation m) as Henv.
  destruct (deliver p m log) as [[e|] log'].
  - destruct Hout as (done & c & -> & _ & [k Hk]).
    exists (done ++ [c; Reset; Quit])%list. split; [reflexivity|].
    rewrite Hk in Henv. apply Forall_app in Henv as [Hdc _].
    apply Forall_app in Hdc as [Hd Hc].
    apply Forall_app. split; [exact Hd|].
    inversion Hc; subst. repeat constructor. assumption.
  - subst log'. eexists. split; [reflexivity|].
    apply Forall_app. split; [exact Henv | repeat constructor].
Qed.

(** [transcript], one case per way the negotiation can go. *)
Lemma transcript_cases (p : Peer) (m : MailMessage) (a : string) :
  transcript p m a []
  = match answer p [] (Dial a) with
    | Some e => (Some e, [Dial a])
    | None =>
        if tls m then
          if advertises p [Dial a] "STARTTLS" then
            match answer p [Dial a; Extension "STARTTLS"]
                    (StartTLS true (server m)) with
            | Some e =>
                (Some e, [Dial a; Extension "STARTTLS";
                          StartTLS true (server m); Reset; Quit])
            | None =>
                deliver p m [Dial a; Extension "STARTTLS";
                             StartTLS true (server m)]
            end
          else deliver p m [Dial a; Extension "STARTTLS"]
        else deliver p m [Dial a]
    end.
Proof.
  unfold transcript, bind, call, ask_extension. cbn [app].
  destruct (answer p [] (Dial a)); [reflexivity|].
  destruct (tls m); [|reflexivity]. cbn [app].
  destruct (advertises p [Dial a] "STARTTLS"); [|reflexivity]. cbn [app].
  destruct (answer p [Dial a; Extension "STARTTLS"] (StartTLS true (server m)));
    [|reflexivity].
  rewrite abort_log. reflexivity.
Qed.

(** X8: when [smtp.Dial] fails, [Send] returns the dial error as it came
    and makes no other client call, not even [Reset] or [Quit]. *)
Theorem Send_returns_dial_error (p : Peer) (hs ps : list (string * string))
    (m m' : MailMessage) (e : error) :
  build hs ps m = (m', None) →
  answer p [] (Dial (dial_address m')) = Some e →
  Send p hs ps m = (m', (Some e, [Dial (dial_address m')])).
Proof.
  intros Hbuild Hdial.
  rewrite (Send_success_path p hs ps m m' Hbuild), transcript_cases, Hdial.
  reflexivity.
Qed.

Lemma Send_returns_dial_error_witness :
  Send unreachable_peer [] [] three_rcpt_message
  = ((build [] [] three_rcpt_message).1,
     (Some (ProtocolError "dial tcp: connection refused"),
      [Dial "mail.example.org:2525"])).
Proof.
  apply (Send_returns_dial_error unreachable_peer [] [] three_rcpt_message
           (build [] [] three_rcpt_message).1); reflexivity.
Defined.

(** X9: every way [Send] can fail.  Either the body is empty and nothing
    was dialled, or the dial failed and [Dial] is the only call, or some
    later call failed: then the calls end with that call, [Reset] and
    [Quit], and the error returned is the one that call returned. *)
Theorem Send_failure_resets_and_quits (p : Peer)
    (hs ps : list (string * string)) (m m' : MailMessage) (e : error)
    (log : list smtp_call) :
  Send p hs ps m = (m', (Some e, log)) →
  (body m = [] ∧ m' = m ∧ log = [] ∧ e = Errorf "Message body is empty")
  ∨ (log = [Dial (dial_address m')]
     ∧ answer p [] (Dial (dial_address m')) = Some e)
  ∨ (∃ done c,
       log = (Dial (dial_address m') :: done ++ [c; Reset; Quit])%list
       ∧ answer p (Dial (dial_address m') :: done) c = Some e).
Proof.
  intros HS. unfold Send in HS.
  destruct (build hs ps m) as [m1 [eb|]] eqn:Hbuild.
  { injection HS as <- <- <-.
    destruct (build_failure hs ps m m1 eb Hbuild) as (Hb & -> & ->). auto. }
  fold (dial_address m1) in HS. rewrite transcript_cases in HS.
  set (a := dial_address m1) in *.
  destruct (answer p [] (Dial a)) as [ed|] eqn:Hdial.
  { injection HS as <- <- <-. auto. }
  right. right.
  assert (Hdeliver : ∀ nego,
    (m1, deliver p m1 (Dial a :: nego)) = (m', (Some e, log)) →
    ∃ done c, log = (Dial (dial_address m') :: done ++ [c; Reset; Quit])%list
              ∧ answer p (Dial (dial_address m') :: done) c = Some e).
  { intros nego Hd. pose proof (deliver_outcome p m1 (Dial a :: nego)) as Ho.
    destruct (deliver p m1 (Dial a :: nego)) as [err log'].
    injection Hd as <- -> ->.
    destruct Ho as (done & c & -> & Hc & _).
    exists (nego ++ done)%list, c. split; [same_log|].
    rewrite <- Hc. reflexivity. }
  destruct (tls m1); [|exact (Hdeliver [] HS)].
  destruct (advertises p [Dial a] "STARTTLS");
    [|exact (Hdeliver [Extension "STARTTLS"] HS)].
  destruct (answer p [Dial a; Extension "STARTTLS"] (StartTLS true (server m1)))
    as [et|] eqn:Htls.
  - injection HS as <- <- <-.
    exists [Extension "STARTTLS"], (StartTLS true (server m1)). auto.
  - exact (Hdeliver [Extension "STARTTLS"; StartTLS true (server m1)] HS).
Qed.

Lemma Send_failure_resets_and_quits_witness :
  ∃ done c,
    (Send picky_peer [] [] three_rcpt_message).2.2
    = (Dial "mail.example.org:2525" :: done ++ [c; Reset; Quit])%list
    ∧ answer picky_peer (Dial "mail.example.org:2525" :: done) c
      = Some (ProtocolError "550 no such user").
Proof.
  destruct (Send_failure_resets_and_quits picky_peer [] [] three_rcpt_message
              (Send picky_peer [] [] three_rcpt_message).1
              (ProtocolError "550 no such user")
              (Send picky_peer [] [] three_rcpt_message).2.2 eq_refl)
    as [(Hb & _) | [(Hlog & _) | H]].
  - discriminate Hb.
  - discriminate Hlog.
  - exact H.
Defined.

(** X10: a nil result of [Send] means the whole conversation took place:
    the body was not empty, and after the dial and the negotiation the
    sender, every recipient in order, the data command, one write of the
    whole buffer and the close were issued, then [Quit]. *)
Theorem Send_success_means_everything_was_sent (p : Peer)
    (hs ps : list (string * string)) (m m' : MailMessage)
    (log : list smtp_call) :
  Send p hs ps m = (m', (None, log)) →
  body m ≠ []
  ∧ build hs ps m = (m', None)
  ∧ ∃ nego,
      log = (Dial (dial_address m') :: nego
             ++ Mail (from m) :: map Rcpt (to m)
             ++ [Data; WriterWrite (buf m'); WriterClose; Quit])%list
      ∧ (nego = []
         ∨ tls m = true
           ∧ (nego = [Extension "STARTTLS"]
              ∨ nego = [Extension "STARTTLS"; StartTLS true (server m)])).
Proof.
  intros HS. unfold Send in HS.
  destruct (build hs ps m) as [m1 [eb|]] eqn:Hbuild; [discriminate|].
  destruct (build_success_marks hs ps m m1 Hbuild) as [_ Hb].
  destruct (build_keeps_envelope hs ps m m1 None Hbuild)
    as (Htls & Hsrv & _ & Hfrom & Hto).
  fold (dial_address m1) in HS. rewrite transcript_cases in HS.
  set (a := dial_address m1) in *.
  destruct (answer p [] (Dial a)) as [ed|] eqn:Hdial; [discriminate|].
  assert (Hdeliver : ∀ nego,
    (m1, deliver p m1 (Dial a :: nego)) = (m', (None, log)) →
    m1 = m'
    ∧ log = (Dial (dial_address m') :: nego
             ++ Mail (from m) :: map Rcpt (to m)
             ++ [Data; WriterWrite (buf m'); WriterClose; Quit])%list).
  { intros nego Hd. pose proof (deliver_outcome p m1 (Dial a :: nego)) as Ho.
    destruct (deliver p m1 (Dial a :: nego)) as [err log'].
    injection Hd as <- -> ->. split; [reflexivity|].
    rewrite Ho. unfold envelope_commands. rewrite Hfrom, Hto. same_log. }
  split; [exact Hb|].
  destruct (tls m1) eqn:Htls1.
  - destruct (advertises p [Dial a] "STARTTLS").
    + destruct (answer p [Dial a; Extension "STARTTLS"]
                  (StartTLS true (server m1))) as [et|]; [discriminate|].
      destruct (Hdeliver _ HS) as [<- Hlog]. split; [reflexivity|].
      eexists. split; [exact Hlog|]. right. rewrite <- Htls, Hsrv. auto.
    + destruct (Hdeliver _ HS) as [<- Hlog]. split; [reflexivity|].
      eexists. split; [exact Hlog|]. right. rewrite <- Htls. auto.
  - destruct (Hdeliver _ HS) as [<- Hlog]. split; [reflexivity|].
    exists []. split; [exact Hlog | auto].
Qed.

Lemma Send_success_means_everything_was_sent_witness :
  let m' := (Send tls_peer [] [] tls_hello_message).1 in
  ∃ nego,
    (Send tls_peer [] [] tls_hello_message).2.2
    = (Dial (dial_address m') :: nego
       ++ Mail "a@x.com" :: map Rcpt ["b@x.com"]
       ++ [Data; WriterWrite (buf m'); WriterClose; Quit])%list
    ∧ (nego = []
       ∨ true = true
         ∧ (nego = [Extension "STARTTLS"]
            ∨ nego = [Extension "STARTTLS"; StartTLS true "localhost"])).
Proof.
  exact (proj2 (proj2
    (Send_success_means_everything_was_sent tls_peer [] []
       tls_hello_message (Send tls_peer [] [] tls_hello_message).1
       (Send tls_peer [] [] tls_hello_message).2.2 eq_refl))).
Defined.

Lemma add_recipients_refused (p : Peer) (l1 : list string) (v : string)
    (l2 : list string) (log : list smtp_call) (e : error) :
  (∀ i r, l1 !! i = Some r →
     answer p (log ++ map Rcpt (take i l1))%list (Rcpt r) = None) →
  answer p (log ++ map Rcpt l1)%list (Rcpt v) = Some e →
  add_recipients p (l1 ++ v :: l2) log
  = (Some e, (log ++ map Rcpt l1 ++ [Rcpt v])%list).
Proof.
  revert log. induction l1 as [|r0 l1 IH]; intros log Hok Hbad.
  - cbn [app map add_recipients] in *. unfold bind, call.
    rewrite app_nil_r in Hbad. rewrite Hbad. reflexivity.
  - cbn [app add_recipients]. unfold bind, call.
    pose proof (Hok 0%nat r0 eq_refl) as H0.
    cbn [take map] in H0. rewrite app_nil_r in H0. rewrite H0.
    rewrite (IH (log ++ [Rcpt r0])%list).
    + f_equal. same_log.
    + intros i r Hr. rewrite <- (Hok (S i) r Hr). f_equal. same_log.
    + rewrite <- Hbad. f_equal. same_log.
Qed.

(** After a successful dial and a negotiation that does not fail, [Send]
    continues with [deliver] on the calls made so far. *)
Lemma transcript_after_negotiation (p : Peer) (m : MailMessage) (a : string)
    (nego : list smtp_call) :
  answer p [] (Dial a) = None →
  negotiation p m a nego →
  transcript p m a [] = deliver p m (Dial a :: nego).
Proof.
  intros Hdial Hn. rewrite transcript_cases, Hdial.
  destruct Hn as [[Ht ->] | [(Ht & Hadv & ->) | (Ht & Hadv & Hs & ->)]];
    rewrite Ht; [reflexivity | |]; rewrite Hadv; [reflexivity|].
  rewrite Hs. reflexivity.
Qed.

(** Every [Send] that gets past the dial and does not fail the handshake
    goes through one of the negotiations. *)
Lemma negotiation_exists (p : Peer) (m : MailMessage) (a : string) :
  (tls m = true → advertises p [Dial a] "STARTTLS" = true →
   answer p [Dial a; Extension "STARTTLS"] (StartTLS true (server m))
   = None) →
  ∃ nego, negotiation p m a nego.
Proof.
  intros Hs. unfold negotiation.
  destruct (tls m); [|eauto].
  destruct (advertises p [Dial a] "STARTTLS"); eauto 10.
Qed.

(** X11: the recipients are offered in order and the first refusal ends
    the conversation.  However the negotiation went, when the server
    accepts the sender and the recipients before [v] and refuses [v],
    [Send] returns that refusal after [Reset] and [Quit]; the recipients
    after [v] are never offered and no data is sent. *)
Theorem Send_stops_at_refused_recipient (p : Peer)
    (hs ps : list (string * string)) (m m' : MailMessage)
    (nego : list smtp_call) (l1 : list string) (v : string)
    (l2 : list string) (e : error) :
  build hs ps m = (m', None) →
  to m = (l1 ++ v :: l2)%list →
  answer p [] (Dial (dial_address m')) = None →
  negotiation p m (dial_address m') nego →
  answer p (Dial (dial_address m') :: nego) (Mail (from m)) = None →
  (∀ i r, l1 !! i = Some r →
     answer p (Dial (dial_address m') :: nego
               ++ Mail (from m) :: map Rcpt (take i l1))%list (Rcpt r)
     = None) →
  answer p (Dial (dial_address m') :: nego
            ++ Mail (from m) :: map Rcpt l1)%list (Rcpt v) = Some e →
  Send p hs ps m
  = (m', (Some e, (Dial (dial_address m') :: nego
                   ++ Mail (from m) :: map Rcpt l1
                   ++ [Rcpt v; Reset; Quit])%list)).
Proof.
  intros Hbuild Hto Hdial Hnego Hmail Hok Hbad.
  destruct (build_keeps_envelope hs ps m m' None Hbuild)
    as (Htls' & Hsrv' & _ & Hfrom & Hto').
  assert (Hnego' : negotiation p m' (dial_address m') nego).
  { unfold negotiation in *. rewrite Htls', Hsrv'. exact Hnego. }
  rewrite (Send_success_path p hs ps m m' Hbuild).
  rewrite (transcript_after_negotiation p m' _ nego Hdial Hnego').
  unfold deliver, bind, call.
  rewrite Hfrom, Hmail, Hto', Hto.
  rewrite (add_recipients_refused p l1 v l2 _ e).
  - rewrite abort_log. f_equal. f_equal. same_log.
  - intros i r Hr. rewrite <- (Hok i r Hr). f_equal. same_log.
  - rewrite <- Hbad. f_equal. same_log.
Qed.

Lemma Send_stops_at_refused_recipient_witness :
  Send picky_peer [] [] three_rcpt_message
  = ((build [] [] three_rcpt_message).1,
     (Some (ProtocolError "550 no such user"),
      [Dial "mail.example.org:2525"; Mail "a@x.com"; Rcpt "b@x.com";
       Rcpt "c@x.com"; Reset; Quit]))
  ∧ Send picky_peer [] [] three_rcpt_tls_message
    = ((build [] [] three_rcpt_tls_message).1,
       (Some (ProtocolError "550 no such user"),
        [Dial "mail.example.org:2525"; Extension "STARTTLS";
         Mail "a@x.com"; Rcpt "b@x.com"; Rcpt "c@x.com"; Reset; Quit]))
  ∧ Send tls_refusing_peer [] [] three_rcpt_tls_message
    = ((build [] [] three_rcpt_tls_message).1,
       (Some (ProtocolError "550 no such user"),
        [Dial "mail.example.org:2525"; Extension "STARTTLS";
         StartTLS true "mail.example.org";
         Mail "a@x.com"; Rcpt "b@x.com"; Rcpt "c@x.com"; Reset; Quit])).
Proof.
  split; [|split].
  - apply (Send_stops_at_refused_recipient picky_peer [] []
             three_rcpt_message (build [] [] three_rcpt_message).1
             [] ["b@x.com"] "c@x.com" ["d@x.com"]
             (ProtocolError "550 no such user"));
      try reflexivity.
    + left. split; reflexivity.
    + intros [|i] r Hr; [|discriminate Hr].
      injection Hr as <-. reflexivity.
  - apply (Send_stops_at_refused_recipient picky_peer [] []
             three_rcpt_tls_message (build [] [] three_rcpt_tls_message).1
             [Extension "STARTTLS"] ["b@x.com"] "c@x.com" ["d@x.com"]
             (ProtocolError "550 no such user"));
      try reflexivity.
    + right. left. repeat split; reflexivity.
    + intros [|i] r Hr; [|discriminate Hr].
      injection Hr as <-. reflexivity.
  - apply (Send_stops_at_refused_recipient tls_refusing_peer [] []
             three_rcpt_tls_message (build [] [] three_rcpt_tls_message).1
             [Extension "STARTTLS"; StartTLS true "mail.example.org"]
             ["b@x.com"] "c@x.com" ["d@x.com"]
             (ProtocolError "550 no such user"));
      try reflexivity.
    + right. right. repeat split; reflexivity.
    + intros [|i] r Hr; [|discriminate Hr].
      injection Hr as <-. reflexivity.
Defined.

(** The calls of [Send]: a negotiation, which is empty or the extension
    query with at most the one handshake, and calls outside it. *)
Lemma Send_log_shape (p : Peer) (hs ps : list (string * string))
    (m : MailMessage) :
  ∃ nego rest,
    (Send p hs ps m).2.2 = (nego ++ rest)%list
    ∧ Forall (λ c, is_negotiation c = false) rest
    ∧ (nego = []
       ∨ tls m = true
         ∧ ∃ a, nego = [Dial a; Extension "STARTTLS"]
                ∨ nego = [Dial a; Extension "STARTTLS";
                          StartTLS true (server m)]).
Proof.
  unfold Send.
  destruct (build hs ps m) as [m1 [eb|]] eqn:Hbuild.
  { exists [], []. cbn. auto. }
  destruct (build_keeps_envelope hs ps m m1 None Hbuild)
    as (Htls & Hsrv & _).
  fold (dial_address m1). rewrite transcript_cases.
  set (a := dial_address m1). cbn [snd].
  destruct (answer p [] (Dial a)) as [ed|].
  { exists [], [Dial a]. cbn [snd app].
    repeat split; auto; repeat constructor. }
  destruct (tls m1) eqn:Htls1.
  - rewrite <- Htls, <- Hsrv.
    destruct (advertises p [Dial a] "STARTTLS").
    + destruct (answer p [Dial a; Extension "STARTTLS"]
                  (StartTLS true (server m1))) as [et|].
      * exists [Dial a; Extension "STARTTLS"; StartTLS true (server m1)],
          [Reset; Quit].
        cbn [snd app]. repeat split; eauto; repeat constructor.
      * destruct (deliver_no_negotiation p m1
                    [Dial a; Extension "STARTTLS"; StartTLS true (server m1)])
          as (rest & -> & Hrest).
        exists [Dial a; Extension "STARTTLS"; StartTLS true (server m1)],
          rest. eauto 10.
    + destruct (deliver_no_negotiation p m1 [Dial a; Extension "STARTTLS"])
        as (rest & -> & Hrest).
      exists [Dial a; Extension "STARTTLS"], rest. eauto 10.
  - destruct (deliver_no_negotiation p m1 [Dial a]) as (rest & -> & Hrest).
    exists [], (Dial a :: rest). cbn [app]. split; [reflexivity|].
    split; [|auto]. constructor; [reflexivity | exact Hrest].
Qed.

(** X12: without the TLS flag, [Send] neither asks for the STARTTLS
    extension nor starts a handshake, whatever the server offers. *)
Theorem Send_without_tls_never_negotiates (p : Peer)
    (hs ps : list (string * string)) (m : MailMessage) :
  tls m = false →
  Forall (λ c, is_negotiation c = false) (Send p hs ps m).2.2.
Proof.
  intros Htls.
  destruct (Send_log_shape p hs ps m) as (nego & rest & -> & Hrest & Hn).
  destruct Hn as [-> | [Ht _]]; [exact Hrest | congruence].
Qed.

Lemma Send_without_tls_never_negotiates_witness :
  Forall (λ c, is_negotiation c = false)
    (Send tls_peer [] [] hello_message).2.2.
Proof.
  apply (Send_without_tls_never_negotiates tls_peer [] [] hello_message).
  reflexivity.
Defined.

(** X13: whenever [Send] starts a TLS handshake, the message asked for TLS
    and the handshake is configured to skip certificate verification, with
    the server field as it was given as the server name. *)
Theorem Send_handshake_skips_verification (p : Peer)
    (hs ps : list (string * string)) (m : MailMessage) (c : smtp_call) :
  c ∈ (Send p hs ps m).2.2 →
  is_StartTLS c = true →
  tls m = true ∧ c = StartTLS true (server m).
Proof.
  intros Hin Hc.
  destruct (Send_log_shape p hs ps m) as (nego & rest & Hlog & Hrest & Hn).
  rewrite Hlog in Hin. apply elem_of_app in Hin as [Hin | Hin].
  - destruct Hn as [-> | (Ht & a & [-> | ->])].
    + inversion Hin.
    + split; [exact Ht|].
      repeat (apply elem_of_cons in Hin as [-> | Hin]; [discriminate Hc|]).
      inversion Hin.
    + split; [exact Ht|].
      apply elem_of_cons in Hin as [-> | Hin]; [discriminate Hc|].
      apply elem_of_cons in Hin as [-> | Hin]; [discriminate Hc|].
      apply elem_of_cons in Hin as [-> | Hin]; [reflexivity|].
      inversion Hin.
  - exfalso. rewrite Forall_forall in Hrest.
    apply Hrest in Hin.
    destruct c; discriminate.
Qed.

Lemma Send_handshake_skips_verification_witness :
  tls explicit_port_message = true
  ∧ StartTLS true "mail.example.org:587"
    = StartTLS true (server explicit_port_message).
Proof.
  apply (Send_handshake_skips_verification tls_peer [] []
           explicit_port_message (StartTLS true "mail.example.org:587")).
  - vm_compute. do 2 right. left.
  - reflexivity.
Defined.

Lemma Contains_char (s : string) (c : ascii) :
  strings.Contains s (String c EmptyString) = true
  ↔ In c (String.list_ascii_of_string s).
Proof.
  induction s as [|a s IH].
  - cbn. split; [discriminate | tauto].
  - cbn [strings.Contains String.prefix String.list_ascii_of_string In].
    destruct (ascii_dec c a) as [-> | Hne].
    + destruct s; cbn; tauto.
    + cbn [orb]. rewrite IH. split; [tauto|].
      intros [Heq | Hin]; [congruence | exact Hin].
Qed.

Lemma transcript_starts_with_dial (p : Peer) (m : MailMessage) (a : string) :
  ∃ rest, (transcript p m a []).2 = Dial a :: rest.
Proof.
  rewrite transcript_cases.
  destruct (answer p [] (Dial a)); [eauto|].
  destruct (tls m).
  - destruct (advertises p [Dial a] "STARTTLS").
    + destruct (answer p _ (StartTLS true (server m))); [eauto|].
      destruct (deliver_no_negotiation p m
                  [Dial a; Extension "STARTTLS"; StartTLS true (server m)])
        as (rest & -> & _). cbn [app]. eauto.
    + destruct (deliver_no_negotiation p m [Dial a; Extension "STARTTLS"])
        as (rest & -> & _). cbn [app]. eauto.
  - destruct (deliver_no_negotiation p m [Dial a]) as (rest & -> & _).
    cbn [app]. eauto.
Qed.

(** X14: the first client call of a [Send] that gets past [build] is the
    dial.  A server value that contains a colon is dialled as it is and
    the port field is not used; otherwise the address is the server, a
    colon and the port in decimal. *)
Theorem Send_dials_server_and_port (p : Peer)
    (hs ps : list (string * string)) (m : MailMessage) :
  body m ≠ [] →
  ∃ a rest,
    (Send p hs ps m).2.2 = Dial a :: rest
    ∧ (In ":"%char (String.list_ascii_of_string (server m)) → a = server m)
    ∧ (¬ In ":"%char (String.list_ascii_of_string (server m)) →
       a = server m +:+ ":" +:+ pretty (port m)).
Proof.
  intros Hb. destruct (build_nonempty_body hs ps m Hb) as [out Hbuild].
  rewrite (Send_success_path p hs ps m _ Hbuild). cbn [snd].
  destruct (transcript_starts_with_dial p
              (with_buildCalled (with_buf m out) true)
              (dial_address (with_buildCalled (with_buf m out) true)))
    as [rest Hrest].
  eexists _, rest. split; [exact Hrest|].
  unfold dial_address. cbn [server port with_buildCalled with_buf].
  pose proof (Contains_char (server m) ":"%char) as Hc.
  destruct (strings.Contains (server m) ":") eqn:Hcont.
  - split; [reflexivity|]. intros Hn. exfalso. apply Hn, Hc. reflexivity.
  - split; [|reflexivity]. intros Hin. apply Hc in Hin. discriminate.
Qed.

Lemma Send_dials_server_and_port_witness :
  (∃ rest, (Send plain_peer [] [] explicit_port_message).2.2
           = Dial "mail.example.org:587" :: rest)
  ∧ (∃ rest, (Send plain_peer [] [] three_rcpt_message).2.2
             = Dial "mail.example.org:2525" :: rest).
Proof.
  split.
  - destruct (Send_dials_server_and_port plain_peer [] []
                explicit_port_message) as (a & rest & Hlog & Hyes & _);
      [discriminate|].
    exists rest. rewrite Hlog, Hyes; [reflexivity|].
    vm_compute. tauto.
  - destruct (Send_dials_server_and_port plain_peer [] []
                three_rcpt_message) as (a & rest & Hlog & _ & Hno);
      [discriminate|].
    exists rest. rewrite Hlog, Hno; [reflexivity|].
    vm_compute. intuition discriminate.
Defined.

(** X15: [Send] renders the message each time it is called.  On a fresh
    buffer, with a server that accepts every command, the first [Send]
    transmits the rendering of the message and a second [Send] transmits
    that rendering followed by a second rendering of the same message,
    whether or not TLS is asked for and whatever orders the map loops take;
    without attachments the two renderings are the same bytes. *)
Theorem Send_twice_transmits_the_message_twice (p : Peer)
    (hs1 ps1 hs2 ps2 : list (string * string)) (m : MailMessage) :
  body m ≠ [] → buf m = [] →
  (∀ l c, answer p l c = None) →
  let out1 := rendering hs1 ps1 m in
  let out2 := rendering hs2 ps2 m in
  ∃ m1 m2 nego,
    negotiation p m (dial_address m) nego
    ∧ out1 ≠ [] ∧ out2 ≠ []
    ∧ Send p hs1 ps1 m
      = (m1, (None, (Dial (dial_address m) :: nego
                     ++ Mail (from m) :: map Rcpt (to m)
                     ++ [Data; WriterWrite out1; WriterClose; Quit])%list))
    ∧ Send p hs2 ps2 m1
      = (m2, (None, (Dial (dial_address m) :: nego
                     ++ Mail (from m) :: map Rcpt (to m)
                     ++ [Data; WriterWrite (out1 ++ out2); WriterClose;
                         Quit])%list))
    ∧ (hs2 = hs1 → ps2 = ps1 → out2 = out1)
    ∧ (attachments m = ∅ → out2 = out1).
Proof.
  intros Hb Hbuf Hok out1 out2.
  destruct (build_renders hs1 ps1 m Hb) as [Hout1 Hbuild1].
  rewrite Hbuf in Hbuild1. cbn [app] in Hbuild1. fold out1 in Hbuild1, Hout1.
  set (m1 := with_buildCalled (with_buf m out1) true) in *.
  assert (Hb1 : body m1 ≠ []) by exact Hb.
  destruct (build_renders hs2 ps2 m1 Hb1) as [Hout2 Hbuild2].
  change (rendering hs2 ps2 m1) with out2 in Hbuild2, Hout2.
  change (buf m1) with out1 in Hbuild2.
  destruct (negotiation_exists p m (dial_address m)) as [nego Hnego].
  { intros _ _. apply Hok. }
  exists m1, (with_buildCalled (with_buf m1 (out1 ++ out2)%list) true), nego.
  split; [exact Hnego|]. split; [exact Hout1|]. split; [exact Hout2|].
  split; [|split; [|split]].
  - rewrite (Send_success_path p hs1 ps1 m m1 Hbuild1).
    change (dial_address m1) with (dial_address m).
    rewrite (transcript_after_negotiation p m1 _ nego (Hok _ _) Hnego).
    rewrite (deliver_accepted p _ _ Hok).
    first [reflexivity | f_equal; f_equal; same_log].
  - rewrite (Send_success_path p hs2 ps2 m1 _ Hbuild2).
    change (dial_address (with_buildCalled
                            (with_buf m1 (out1 ++ out2)%list) true))
      with (dial_address m).
    rewrite (transcript_after_negotiation p
               (with_buildCalled (with_buf m1 (out1 ++ out2)%list) true)
               (dial_address m) nego (Hok _ _) Hnego).
    rewrite (deliver_accepted p _ _ Hok).
    first [reflexivity | f_equal; f_equal; same_log].
  - intros -> ->. reflexivity.
  - intros Hatt. subst out1 out2. unfold rendering.
    rewrite Hatt, map_size_empty. reflexivity.
Qed.

Lemma Send_twice_transmits_the_message_twice_witness :
  let out := rendering [] [] three_rcpt_tls_message in
  ∃ m1 m2,
    out ≠ []
    ∧ Send tls_peer [] [] three_rcpt_tls_message
      = (m1, (None, [Dial "mail.example.org:2525"; Extension "STARTTLS";
                     StartTLS true "mail.example.org"; Mail "a@x.com";
                     Rcpt "b@x.com"; Rcpt "c@x.com"; Rcpt "d@x.com";
                     Data; WriterWrite out; WriterClose; Quit]))
    ∧ Send tls_peer [("ghost", "zz")] [] m1
      = (m2, (None, [Dial "mail.example.org:2525"; Extension "STARTTLS";
                     StartTLS true "mail.example.org"; Mail "a@x.com";
                     Rcpt "b@x.com"; Rcpt "c@x.com"; Rcpt "d@x.com";
                     Data; WriterWrite (out ++ out); WriterClose; Quit])).
Proof.
  intros out.
  destruct (Send_twice_transmits_the_message_twice tls_peer [] []
              [("ghost", "zz")] [] three_rcpt_tls_message)
    as (m1 & m2 & nego & Hnego & Hout & _ & H1 & H2 & _ & Hsame);
    [discriminate | reflexivity | intros l c; reflexivity |].
  assert (Hn : nego = [Extension "STARTTLS"; StartTLS true "mail.example.org"]).
  { destruct Hnego as [[Ht _] | [(_ & Hadv & _) | (_ & _ & _ & Hn)]];
      [discriminate Ht | discriminate Hadv | exact Hn]. }
  subst nego. rewrite (Hsame eq_refl) in H2.
  exists m1, m2. split; [exact Hout|]. split; [exact H1 | exact H2].
Defined.

Lemma range_of_length (mp : gmap string string) (l : list (string * string)) :
  range_of mp l → length l = size mp.
Proof.
  unfold range_of. intros Hl. rewrite Hl. apply length_map_to_list.
Qed.

(** X16: the rendering of a message with attachments.  After the address
    lines comes one multipart header pair for each boundary the first loop
    visits, then the content headers and the encoded body, then one
    attachment part for each name the second loop visits, with its
    recorded length and stored bytes; each loop visits every attachment
    once, so there are as many header pairs and as many parts as
    attachments. *)
Theorem attachments_layout (hs ps : list (string * string))
    (m : MailMessage) :
  body m ≠ [] → attachments m ≠ ∅ →
  range_of (attachmentBoundaries m) hs →
  range_of (attachmentBoundaries m) ps →
  ∃ m',
    build hs ps m = (m', None)
    ∧ buf m'
      = (buf m
         ++ String.list_byte_of_string (address_headers m)
         ++ concat (map (λ kv, String.list_byte_of_string
                                 (multipart_header kv.2)) hs)
         ++ String.list_byte_of_string (content_headers m)
         ++ base64.Encode (body m)
         ++ concat (map (λ kv,
                      attachment_part kv.1 kv.2
                        (default 0 (attachmentLengths m !! kv.1))
                        (default [] (attachments m !! kv.1))) ps))%list
    ∧ length hs = size (attachmentBoundaries m)
    ∧ length ps = size (attachmentBoundaries m).
Proof.
  intros Hb Hatt Hhs Hps. unfold build.
  destruct (Z.eqb_spec (Z.of_nat (length (body m))) 0) as [Hz | _].
  { destruct (body m); [congruence | discriminate]. }
  cbv zeta.
  destruct (Z.ltb_spec 0 (Z.of_nat (size (attachments m)))) as [_ | Hle].
  2:{ exfalso. apply Hatt, map_size_empty_iff. lia. }
  eexists. split; [reflexivity|].
  split; [|split; now apply range_of_length].
  cbn [buf with_buildCalled with_buf].
  rewrite fold_write_attachment, fold_write_multipart_header.
  rewrite (map_ext _ _ write_multipart_header_text).
  rewrite (map_ext (write_attachment m [])
             (λ kv, attachment_part kv.1 kv.2
                      (default 0 (attachmentLengths m !! kv.1))
                      (default [] (attachments m !! kv.1)))).
  2:{ intros [k v]. apply write_attachment_part. }
  unfold WriteString, Write, address_headers, content_headers.
  split_bytes. rewrite <- !app_assoc. reflexivity.
Qed.

Lemma attachments_layout_witness :
  let m := (AddAttachment one_file "k3x9" "/tmp/report.bin"
              hello_message).1 in
  ∃ m',
    build [("report.bin", "k3x9")] [("report.bin", "k3x9")] m = (m', None)
    ∧ buf m'
      = (buf m
         ++ String.list_byte_of_string (address_headers m)
         ++ concat (map (λ kv, String.list_byte_of_string
                                 (multipart_header kv.2))
                      [("report.bin", "k3x9")])
         ++ String.list_byte_of_string (content_headers m)
         ++ base64.Encode (body m)
         ++ concat (map (λ kv,
                      attachment_part kv.1 kv.2
                        (default 0 (attachmentLengths m !! kv.1))
                        (default [] (attachments m !! kv.1)))
                      [("report.bin", "k3x9")]))%list
    ∧ length [("report.bin", "k3x9")] = size (attachmentBoundaries m)
    ∧ length [("report.bin", "k3x9")] = size (attachmentBoundaries m).
Proof.
  intros m.
  apply (attachments_layout [("report.bin", "k3x9")]
           [("report.bin", "k3x9")] m).
  - discriminate.
  - intros Hempty. apply (f_equal (λ mp, mp !! "report.bin")) in Hempty.
    vm_compute in Hempty. discriminate Hempty.
  - exact range_of_report.
  - exact range_of_report.
Defined.
